(** * AfterInk: displacement engine, phase clock and export pipeline

    A shallow embedding of the rendering/export core of the AfterInk
    repository:

    - [lib/useDisplacementEngine.ts]  (engine hook: live ticker, [loadImage],
      [updateConfig], [exportFrames], [destroy]);
    - [lib/displacementShader.ts]     (GLSL fragment shader: [snoise], [fbm],
      [main]);
    - [lib/exportPngSequence.ts]      (ZIP of PNG frames);
    - [lib/exportWebm.ts]             (MediaRecorder sink);
    - [components/ExportPanel.tsx] and [app/page.tsx] (export handlers).

    Number model.  JavaScript numbers are IEEE-754 binary64 values.  Two
    models of them are given.

    - [Binary64] computes the phase clock on primitive binary64 floats, with
      the source's operations and their rounding; it is the model used
      wherever a statement depends on the exact value of a phase.
    - Elsewhere numbers are exact rationals ([Q]): the engine's state, the
      frame count, the ranges and the order of the phases.  Every equation
      stated on [Q] is an equation of exact arithmetic.

    [Math.PI] is the binary64 constant, a rational just below the real
    number pi.  [Math.cos] and [Math.sin] are the real functions applied to
    the exact value of their argument, and the product [t * Math.PI * 2] is
    taken exactly (it is exact in binary64 for [t = 0] and [t = 1]).  GLSL
    floats are modelled as reals ([R]).  Division by zero, which yields
    [NaN] or an infinity in the source, yields 0 in [Q] and [R]; the
    statements on [Q] and [R] either do not depend on such a quotient or
    assume the divisor to be non-zero. *)

From Stdlib Require Import ZArith QArith Qround Qreals Reals Lra Lia.
From Stdlib Require Import List String Ascii Bool.
From Stdlib Require Import DecimalString.
From Stdlib Require DecimalFacts DecimalNat.
From Stdlib Require PrimFloat FloatOps SpecFloat Uint63.

Set Warnings "-abstract-large-number".
From Stdlib.Strings Require Import Byte.
Import ListNotations.

(* ===================================================================== *)
(** * Part I.  The model                                                  *)
(* ===================================================================== *)

(** ** JavaScript numbers and [Math] *)

Module JS.

(** [x > y] on numbers. *)
Definition gt (x y : Q) : bool := negb (Qle_bool x y).

(** [Math.floor]. *)
Definition Math_floor (x : Q) : Q := inject_Z (Qfloor x).

(** [Math.ceil]. *)
Definition Math_ceil (x : Q) : Q := inject_Z (Qceiling x).

(** [Math.round]: nearest integer, ties towards +infinity. *)
Definition Math_round (x : Q) : Q := inject_Z (Qfloor (x + (1 # 2))).

(** Truncation towards zero (the integer quotient used by [%]). *)
Definition trunc (x : Q) : Z := Z.quot (Qnum x) (Zpos (Qden x)).

(** [x % y]: remainder of the truncated division; the result has the sign
    of the dividend. *)
Definition rem (x y : Q) : Q := x - y * inject_Z (trunc (x / y)).

(** [Math.PI]: the binary64 number nearest to pi,
    [0x1.921fb54442d18p+1 = 884279719003555 / 2^48]. *)
Definition Math_PI_value : Q := 884279719003555 # 281474976710656.
Definition Math_PI : R := Q2R Math_PI_value.

(** [Math.cos], [Math.sin] on a value already in the reals. *)
Definition Math_cos (x : R) : R := cos x.
Definition Math_sin (x : R) : R := sin x.

(** [new Error(message)]. *)
Inductive Error : Type := mkError (message : string).

Definition message (e : Error) : string :=
  match e with mkError m => m end.

End JS.

(** ** [types/config.ts] *)

Record DisplacementConfig : Type := mkConfig {
  amountPx      : Q;
  size          : Q;
  octaves       : Q;
  speed         : Q;
  seed          : Q;
  edgeStrength  : Q;
  edgeThreshold : Q;
  loopDuration  : Q;
  fps           : Q;
  bgTransparent : bool;
  bgColor       : string;
  posterize     : Q
}.

Definition DEFAULT_CONFIG : DisplacementConfig :=
  {| amountPx := 4; size := 20; octaves := 3; speed := 1; seed := 0;
     edgeStrength := 0; edgeThreshold := 1 # 10; loopDuration := 3;
     fps := 24; bgTransparent := true; bgColor := "#ffffff";
     posterize := 0 |}.

(** ** The phase clock

    The two places that compute the loop phase [t].  Each one carries its own
    copy of the posterize quantisation, as in the source. *)

Module PhaseClock.

(** Ticker callback, lines 98-107: [elapsed] is
    [(performance.now() - startTimeRef.current) / 1000]. *)
Definition liveT (config : DisplacementConfig) (elapsed : Q) : Q :=
  let t := JS.rem (elapsed / loopDuration config) 1 in
  if JS.gt (posterize config) 0 then
    let stepsPerLoop := posterize config * loopDuration config in
    JS.Math_floor (t * stepsPerLoop) / stepsPerLoop
  else t.

(** [exportFrames] loop body, lines 226-232. *)
Definition exportT (config : DisplacementConfig) (i : nat) (totalFrames : Q)
  : Q :=
  let t := inject_Z (Z.of_nat i) / totalFrames in
  if JS.gt (posterize config) 0 then
    let stepsPerLoop := posterize config * loopDuration config in
    JS.Math_floor (t * stepsPerLoop) / stepsPerLoop
  else t.

(** Lines 109-110 and 234-235:
    [angle = t * Math.PI * 2; [Math.cos(angle), Math.sin(angle)]]. *)
Definition timeVec (t : Q) : R * R :=
  let angle := (Q2R t * JS.Math_PI * 2)%R in
  (JS.Math_cos angle, JS.Math_sin angle).

(** [TimeVector(phase)] for a real phase, same two lines. *)
Definition TimeVector (phase : R) : R * R :=
  let angle := (phase * JS.Math_PI * 2)%R in
  (JS.Math_cos angle, JS.Math_sin angle).

End PhaseClock.

(** ** The phase clock on binary64 numbers

    The same lines of the source, computed as the engine computes them:
    every [/], [*] and [-] is the correctly rounded binary64 operation. *)

Module Binary64.

Import PrimFloat.
Local Open Scope float_scope.

Definition float : Set := PrimFloat.float.

(** The Number of an integer (exact below [2^53]). *)
Definition ofZ (z : Z) : float :=
  match z with
  | Z0 => 0
  | Zpos _ => of_uint63 (Uint63.of_Z z)
  | Zneg p => - of_uint63 (Uint63.of_Z (Zpos p))
  end.

Definition ofNat (n : nat) : float := ofZ (Z.of_nat n).

(** The Number nearest to a rational whose numerator and denominator are
    below [2^53]: what a decimal literal or a parsed slider value such as
    [2.5] denotes. *)
Definition number (q : Q) : float := ofZ (Qnum q) / ofZ (Zpos (Qden q)).

(** The exact value of a finite Number. *)
Definition toQ (x : float) : Q :=
  match FloatOps.Prim2SF x with
  | SpecFloat.S754_finite s m e =>
      let magnitude :=
        match e with
        | Zneg k => Zpos m # (2 ^ k)
        | _ => inject_Z (Zpos m * 2 ^ e)
        end in
      if s then Qopp magnitude else magnitude
  | _ => 0%Q
  end.

(** [Math.PI]. *)
Definition Math_PI : float := 0x1.921fb54442d18p+1.

(** [x > y]. *)
Definition gt (x y : float) : bool := y <? x.

(** [Math.floor]: a Number with a non-negative exponent is an integer
    already; otherwise the mantissa is shifted, and rounded towards minus
    infinity.  Zeros, infinities and [NaN] are returned unchanged. *)
Definition Math_floor (x : float) : float :=
  match FloatOps.Prim2SF x with
  | SpecFloat.S754_finite s m e =>
      if (0 <=? e)%Z then x
      else
        let n := Z.shiftr (Zpos m) (- e) in
        let whole := (Z.shiftl n (- e) =? Zpos m)%Z in
        if s then - ofZ (if whole then n else n + 1) else ofZ n
  | _ => x
  end.

(** [Math.round]: the nearest integer, a tie going towards plus infinity. *)
Definition Math_round (x : float) : float :=
  match FloatOps.Prim2SF x with
  | SpecFloat.S754_finite s m e =>
      if (0 <=? e)%Z then x
      else
        let n := Z.shiftr (Zpos m) (- e) in
        let twice := (2 * (Zpos m - Z.shiftl n (- e)))%Z in
        let unit := Z.shiftl 1 (- e) in
        if s then - ofZ (if (twice <=? unit)%Z then n else n + 1)
        else ofZ (if (unit <=? twice)%Z then n + 1 else n)
  | _ => x
  end.

(** The integer part, towards zero. *)
Definition trunc (x : float) : float :=
  if x <? 0 then - Math_floor (- x) else Math_floor x.

(** [x % 1]: the remainder of a finite Number by 1 is exact; a zero
    remainder has the sign of [x]. *)
Definition rem1 (x : float) : float :=
  let r := x - trunc x in
  if r =? 0 then (if get_sign x then - 0 else 0) else r.

(** Line 98: [(performance.now() - startTimeRef.current) / 1000]. *)
Definition elapsed (now start : float) : float := (now - start) / ofZ 1000.

(** Ticker callback, lines 99-107. *)
Definition liveT (config : DisplacementConfig) (elapsed : float) : float :=
  let t := rem1 (elapsed / number (loopDuration config)) in
  if gt (number (posterize config)) 0 then
    let stepsPerLoop :=
      number (posterize config) * number (loopDuration config) in
    Math_floor (t * stepsPerLoop) / stepsPerLoop
  else t.

(** [exportFrames] loop body, lines 226-232. *)
Definition exportT (config : DisplacementConfig) (i : nat)
  (totalFrames : float) : float :=
  let t := ofNat i / totalFrames in
  if gt (number (posterize config)) 0 then
    let stepsPerLoop :=
      number (posterize config) * number (loopDuration config) in
    Math_floor (t * stepsPerLoop) / stepsPerLoop
  else t.

(** [Math.round(config.loopDuration * config.fps)], the frame count the
    export panel and the page pass to [exportFrames]. *)
Definition totalFrames (config : DisplacementConfig) : float :=
  Math_round (number (loopDuration config) * number (fps config)).

End Binary64.

(** ** Strings: the few [String.prototype] and global functions used *)

Module JSString.

Open Scope string_scope.

(** [s.replace(pat, empty)] for a one-character pattern and the empty
    replacement: the first occurrence is removed. *)
Fixpoint removeFirst (c : ascii) (s : string) : string :=
  match s with
  | EmptyString => EmptyString
  | String a rest => if Ascii.eqb a c then rest else String a (removeFirst c rest)
  end.

Definition hexDigit (a : ascii) : option Z :=
  let n := Z.of_nat (nat_of_ascii a) in
  if ((48 <=? n) && (n <=? 57))%Z then Some (n - 48)%Z
  else if ((97 <=? n) && (n <=? 102))%Z then Some (n - 87)%Z
  else if ((65 <=? n) && (n <=? 70))%Z then Some (n - 55)%Z
  else None.

(** Longest prefix of hexadecimal digits, accumulated; [None] when no digit
    was read (the [NaN] of [parseInt]). *)
Fixpoint hexPrefix (acc : option Z) (s : string) : option Z :=
  match s with
  | EmptyString => acc
  | String a rest =>
      match hexDigit a with
      | Some d =>
          hexPrefix (Some (match acc with Some v => v * 16 + d | None => d end)%Z)
                    rest
      | None => acc
      end
  end.

(** [parseInt(s, 16)] on a string without leading white space or sign; an
    optional [0x]/[0X] prefix is skipped.  [None] stands for [NaN]. *)
Definition parseInt16 (s : string) : option Z :=
  match s with
  | String "0" (String "x" rest) => hexPrefix None rest
  | String "0" (String "X" rest) => hexPrefix None rest
  | _ => hexPrefix None s
  end.

(** [s.padStart(n, "0")]. *)
Definition padStart0 (n : nat) (s : string) : string :=
  String.concat EmptyString (repeat "0" (n - String.length s)) ++ s.

(** [String(i)] for a non-negative integer. *)
Definition ofNat (i : nat) : string :=
  NilEmpty.string_of_uint (Nat.to_uint i).

End JSString.

(** ** Blobs *)

Record Blob : Type := mkBlob {
  blobParts : list Byte.byte;
  blobType  : string
}.

(** ** The PixiJS objects held by the engine

    Only the state that the hook reads or writes is kept.  Pixel contents are
    not part of these records: what the renderer last drew is recorded as the
    uniform values it was drawn with. *)

Inductive Source : Type :=
| ImageElement (naturalWidth naturalHeight : Z)
| CanvasElement (width height : Z).

Record Uniforms : Type := mkUniforms {
  uResolution    : Q * Q;
  uTimeVec       : R * R;
  uAmountPx      : Q;
  uSize          : Q;
  uOctaves       : Q;
  uSpeed         : Q;
  uSeed          : Q;
  uEdgeStrength  : Q;
  uEdgeThreshold : Q
}.

Record Filter : Type := mkFilter {
  uniforms : Uniforms;
  padding  : Q
}.

Record Sprite : Type := mkSprite {
  texture : Source
}.

Record Application : Type := mkApplication {
  tickerStarted   : bool;            (* app.ticker.started *)
  rendererSize    : Z * Z;           (* app.renderer width, height *)
  backgroundAlpha : Q;               (* app.renderer.background.alpha *)
  backgroundColor : option Z;        (* app.renderer.background.color *)
  stage           : list Sprite;     (* app.stage.children *)
  view            : option Uniforms  (* what app.view (the canvas) shows *)
}.

Record PixiRefs : Type := mkPixiRefs {
  pixi_app    : option Application;
  pixi_filter : option Filter;
  pixi_sprite : option Sprite;
  pixi_PIXI   : bool
}.

(** The refs of one [useDisplacementEngine()] instance. *)
Record Engine : Type := mkEngine {
  pixiRef      : PixiRefs;
  configRef    : DisplacementConfig;
  startTimeRef : Q;
  destroyedRef : bool
}.

(** [Partial<DisplacementConfig>]: every key may be absent. *)
Record PartialConfig : Type := mkPartial {
  p_amountPx      : option Q;
  p_size          : option Q;
  p_octaves       : option Q;
  p_speed         : option Q;
  p_seed          : option Q;
  p_edgeStrength  : option Q;
  p_edgeThreshold : option Q;
  p_loopDuration  : option Q;
  p_fps           : option Q;
  p_bgTransparent : option bool;
  p_bgColor       : option string;
  p_posterize     : option Q
}.

(** ** A state-and-exception monad for the hook's callbacks

    A callback runs on the engine's refs and either returns or throws; what
    it had written before throwing stays written. *)

Module Eff.

Definition M (A : Type) : Type := Engine -> (JS.Error + A) * Engine.

Definition ret {A : Type} (a : A) : M A := fun e => (inr a, e).

Definition bind {A B : Type} (c : M A) (k : A -> M B) : M B :=
  fun e =>
    match c e with
    | (inl err, e') => (inl err, e')
    | (inr a, e') => k a e'
    end.

Definition throw {A : Type} (err : JS.Error) : M A := fun e => (inl err, e).

Definition get : M Engine := fun e => (inr e, e).

Definition modify (f : Engine -> Engine) : M unit := fun e => (inr tt, f e).

(** [await p] for a promise that has settled with [r]. *)
Definition await {A : Type} (r : JS.Error + A) : M A := fun e => (r, e).

End Eff.

Declare Scope eff_scope.
Delimit Scope eff_scope with eff.
Notation "x <- c ;; k" := (Eff.bind c (fun x => k))
  (at level 61, c at next level, right associativity) : eff_scope.
Notation "c ;; k" := (Eff.bind c (fun _ => k))
  (at level 61, right associativity) : eff_scope.

(** ** [lib/useDisplacementEngine.ts]: the hook *)

Module Hook.

Import Eff.
Local Open Scope eff_scope.

(** *** Field updates *)

Definition setApp (a : option Application) (p : PixiRefs) : PixiRefs :=
  {| pixi_app := a; pixi_filter := pixi_filter p;
     pixi_sprite := pixi_sprite p; pixi_PIXI := pixi_PIXI p |}.

Definition setFilter (f : option Filter) (p : PixiRefs) : PixiRefs :=
  {| pixi_app := pixi_app p; pixi_filter := f;
     pixi_sprite := pixi_sprite p; pixi_PIXI := pixi_PIXI p |}.

Definition setSprite (s : option Sprite) (p : PixiRefs) : PixiRefs :=
  {| pixi_app := pixi_app p; pixi_filter := pixi_filter p;
     pixi_sprite := s; pixi_PIXI := pixi_PIXI p |}.

Definition setPIXI (b : bool) (p : PixiRefs) : PixiRefs :=
  {| pixi_app := pixi_app p; pixi_filter := pixi_filter p;
     pixi_sprite := pixi_sprite p; pixi_PIXI := b |}.

Definition onPixi (f : PixiRefs -> PixiRefs) (e : Engine) : Engine :=
  {| pixiRef := f (pixiRef e); configRef := configRef e;
     startTimeRef := startTimeRef e; destroyedRef := destroyedRef e |}.

Definition setConfig (c : DisplacementConfig) (e : Engine) : Engine :=
  {| pixiRef := pixiRef e; configRef := c;
     startTimeRef := startTimeRef e; destroyedRef := destroyedRef e |}.

Definition setStartTime (t : Q) (e : Engine) : Engine :=
  {| pixiRef := pixiRef e; configRef := configRef e;
     startTimeRef := t; destroyedRef := destroyedRef e |}.

Definition setDestroyed (b : bool) (e : Engine) : Engine :=
  {| pixiRef := pixiRef e; configRef := configRef e;
     startTimeRef := startTimeRef e; destroyedRef := b |}.

(** Mutation of the application object, when the ref holds one. *)
Definition onApp (f : Application -> Application) (e : Engine) : Engine :=
  onPixi (fun p => setApp (option_map f (pixi_app p)) p) e.

(** Mutation of the filter object, when the ref holds one. *)
Definition onFilter (f : Filter -> Filter) (e : Engine) : Engine :=
  onPixi (fun p => setFilter (option_map f (pixi_filter p)) p) e.

Definition setTicker (b : bool) (a : Application) : Application :=
  {| tickerStarted := b; rendererSize := rendererSize a;
     backgroundAlpha := backgroundAlpha a;
     backgroundColor := backgroundColor a;
     stage := stage a; view := view a |}.

Definition setRendererSize (wh : Z * Z) (a : Application) : Application :=
  {| tickerStarted := tickerStarted a; rendererSize := wh;
     backgroundAlpha := backgroundAlpha a;
     backgroundColor := backgroundColor a;
     stage := stage a; view := view a |}.

Definition setBackground (alpha : Q) (color : option Z) (a : Application)
  : Application :=
  {| tickerStarted := tickerStarted a; rendererSize := rendererSize a;
     backgroundAlpha := alpha; backgroundColor := color;
     stage := stage a; view := view a |}.

Definition setStage (s : list Sprite) (a : Application) : Application :=
  {| tickerStarted := tickerStarted a; rendererSize := rendererSize a;
     backgroundAlpha := backgroundAlpha a;
     backgroundColor := backgroundColor a;
     stage := s; view := view a |}.

Definition setView (v : option Uniforms) (a : Application) : Application :=
  {| tickerStarted := tickerStarted a; rendererSize := rendererSize a;
     backgroundAlpha := backgroundAlpha a;
     backgroundColor := backgroundColor a;
     stage := stage a; view := v |}.

Definition setTimeVec (v : R * R) (f : Filter) : Filter :=
  {| uniforms :=
       {| uResolution := uResolution (uniforms f); uTimeVec := v;
          uAmountPx := uAmountPx (uniforms f); uSize := uSize (uniforms f);
          uOctaves := uOctaves (uniforms f); uSpeed := uSpeed (uniforms f);
          uSeed := uSeed (uniforms f);
          uEdgeStrength := uEdgeStrength (uniforms f);
          uEdgeThreshold := uEdgeThreshold (uniforms f) |};
     padding := padding f |}.

(** *** Initial refs (lines 52-61) *)

Definition initialEngine : Engine :=
  {| pixiRef := {| pixi_app := None; pixi_filter := None;
                   pixi_sprite := None; pixi_PIXI := false |};
     configRef := DEFAULT_CONFIG;
     startTimeRef := 0;
     destroyedRef := false |}.

(** *** Initialisation effect (lines 64-125)

    [destroyedRef.current = false] runs when the effect starts; [init] runs
    after the dynamic import has resolved, unless the effect was cleaned up
    ([cancelled]) or the engine destroyed in between.  A new
    [PIXI.Application] starts its ticker (PixiJS default [autoStart]) and
    renders the stage on every tick, after the callbacks added to the
    ticker. *)

Definition effectStart (e : Engine) : Engine := setDestroyed false e.

Definition newApplication (canvasWidth canvasHeight : Z) : Application :=
  {| tickerStarted := true;
     rendererSize := (if (canvasWidth =? 0)%Z then 800%Z else canvasWidth,
                      if (canvasHeight =? 0)%Z then 600%Z else canvasHeight);
     backgroundAlpha := 0;
     backgroundColor := Some 0%Z;
     stage := [];
     view := None |}.

Definition init (cancelled : bool) (canvasWidth canvasHeight : Z) (now : Q)
  (e : Engine) : Engine :=
  if cancelled || destroyedRef e then e
  else
    setStartTime now
      (onPixi (fun p => setPIXI true
                          (setApp (Some (newApplication canvasWidth canvasHeight)) p))
              e).

(** *** Ticker callback (lines 93-111)

    [now] is the value of [performance.now()] read by the callback. *)

Definition tickerCallback (now : Q) (e : Engine) : Engine :=
  match pixi_filter (pixiRef e) with
  | None => e
  | Some _ =>
      let config := configRef e in
      let elapsed := (now - startTimeRef e) / 1000 in
      let t := PhaseClock.liveT config elapsed in
      onFilter (setTimeVec (PhaseClock.timeVec t)) e
  end.

(** [app.renderer.render(app.stage)]: the canvas shows the stage drawn with
    the filter's current uniforms. *)
Definition render (e : Engine) : Engine :=
  onApp (setView (option_map uniforms (pixi_filter (pixiRef e)))) e.

(** One display refresh: a started ticker runs the callback, then the
    application renders; a stopped ticker does nothing. *)
Definition tick (now : Q) (e : Engine) : Engine :=
  match pixi_app (pixiRef e) with
  | Some a => if tickerStarted a then render (tickerCallback now e) else e
  | None => e
  end.

(** The cleanup of the effect (lines 116-124). *)
Definition cleanup (e : Engine) : Engine :=
  match pixi_app (pixiRef e) with
  | Some _ =>
      onPixi (fun p => setSprite None (setFilter None (setApp None p))) e
  | None => e
  end.

(** *** [updateBackground] (lines 273-286) *)

Definition updateBackground (config : DisplacementConfig) (a : Application)
  : Application :=
  if bgTransparent config then
    setBackground 0 (backgroundColor a) a
  else
    setBackground 1
      (JSString.parseInt16 (JSString.removeFirst "#" (bgColor config))) a.

(** *** [loadImage] (lines 127-183) *)

Definition sourceSize (source : Source) : Z * Z :=
  match source with
  | ImageElement w h => (w, h)
  | CanvasElement w h => (w, h)
  end.

Definition newFilter (config : DisplacementConfig) (wh : Z * Z) : Filter :=
  {| uniforms :=
       {| uResolution := (inject_Z (fst wh), inject_Z (snd wh));
          uTimeVec := (1%R, 0%R);
          uAmountPx := amountPx config;
          uSize := size config;
          uOctaves := octaves config;
          uSpeed := speed config;
          uSeed := seed config;
          uEdgeStrength := edgeStrength config;
          uEdgeThreshold := edgeThreshold config |};
     padding := JS.Math_ceil (amountPx config) + 2 |}.

Definition loadImage (source : Source) : M unit :=
  e <- get ;;
  match pixi_app (pixiRef e), pixi_PIXI (pixiRef e) with
  | Some _, true =>
      (* remove existing sprite: the stage holds no other child *)
      match pixi_sprite (pixiRef e) with
      | Some _ =>
          modify (onApp (setStage [])) ;;
          modify (onPixi (setSprite None))
      | None => ret tt
      end ;;
      let wh := sourceSize source in
      modify (onApp (setRendererSize wh)) ;;
      let sprite := {| texture := source |} in
      (* the filter created here is both sprite.filters[0] and
         pixiRef.current.filter: one object *)
      e1 <- get ;;
      let config := configRef e1 in
      let filter := newFilter config wh in
      modify (onApp (fun a => setStage (stage a ++ [sprite]) a)) ;;
      modify (onPixi (setSprite (Some sprite))) ;;
      modify (onPixi (setFilter (Some filter))) ;;
      modify (onApp (updateBackground config))
  | _, _ => ret tt
  end.

(** *** [updateConfig] (lines 185-204) *)

Definition orElse {A : Type} (o : option A) (d : A) : A :=
  match o with Some a => a | None => d end.

(** [{ ...config, ...partial }]. *)
Definition merge (config : DisplacementConfig) (partial : PartialConfig)
  : DisplacementConfig :=
  {| amountPx      := orElse (p_amountPx partial) (amountPx config);
     size          := orElse (p_size partial) (size config);
     octaves       := orElse (p_octaves partial) (octaves config);
     speed         := orElse (p_speed partial) (speed config);
     seed          := orElse (p_seed partial) (seed config);
     edgeStrength  := orElse (p_edgeStrength partial) (edgeStrength config);
     edgeThreshold := orElse (p_edgeThreshold partial) (edgeThreshold config);
     loopDuration  := orElse (p_loopDuration partial) (loopDuration config);
     fps           := orElse (p_fps partial) (fps config);
     bgTransparent := orElse (p_bgTransparent partial) (bgTransparent config);
     bgColor       := orElse (p_bgColor partial) (bgColor config);
     posterize     := orElse (p_posterize partial) (posterize config) |}.

Definition pushUniforms (config : DisplacementConfig) (f : Filter) : Filter :=
  {| uniforms :=
       {| uResolution := uResolution (uniforms f);
          uTimeVec := uTimeVec (uniforms f);
          uAmountPx := amountPx config;
          uSize := size config;
          uOctaves := octaves config;
          uSpeed := speed config;
          uSeed := seed config;
          uEdgeStrength := edgeStrength config;
          uEdgeThreshold := edgeThreshold config |};
     padding := JS.Math_ceil (amountPx config) + 2 |}.

Definition updateConfig (partial : PartialConfig) : M unit :=
  modify (fun e => setConfig (merge (configRef e) partial) e) ;;
  e <- get ;;
  let config := configRef e in
  modify (onFilter (pushUniforms config)) ;;
  modify (onApp (updateBackground config)).

(** *** [destroy] (lines 260-268) *)

Definition destroy : M unit :=
  modify (setDestroyed true) ;;
  e <- get ;;
  match pixi_app (pixiRef e) with
  | Some _ =>
      modify (onPixi (setApp None)) ;;
      modify (onPixi (setFilter None)) ;;
      modify (onPixi (setSprite None))
  | None => ret tt
  end.

(** *** [exportFrames] (lines 211-258)

    The function is written twice: as one sequential run ([exportFrames],
    used when nothing else touches the engine while the export is awaiting),
    and as the pieces between two suspension points ([call], [settle]), from
    which interleavings with other callbacks are built. *)

(** Number of iterations of [for (let i = 0; i < totalFrames; i++)]. *)
Definition tripCount (totalFrames : Q) : nat := Z.to_nat (Qceiling totalFrames).

(** Lines 213-222: the guard, [app.ticker.stop()], and the capture of
    [configRef.current]. *)
Definition exportEnter : M DisplacementConfig :=
  e <- get ;;
  match pixi_app (pixiRef e), pixi_filter (pixiRef e) with
  | Some _, Some _ =>
      modify (onApp (setTicker false)) ;;
      ret (configRef e)
  | _, _ => throw (JS.mkError "Engine not initialized")
  end.

(** Lines 226-238: set [uTimeVec] for frame [i] and render the stage. *)
Definition exportStep (config : DisplacementConfig) (totalFrames : Q) (i : nat)
  (e : Engine) : Engine :=
  let t := PhaseClock.exportT config i totalFrames in
  render (onFilter (setTimeVec (PhaseClock.timeVec t)) e).

(** Lines 241-246: the promise around [canvas.toBlob]; [b] is what the
    browser hands to the callback ([None] for [null]). *)
Definition toBlobPromise (b : option Blob) : JS.Error + Blob :=
  match b with
  | Some blob => inr blob
  | None => inl (JS.mkError "toBlob failed")
  end.

(** Lines 251-253: [app.ticker.start(); startTimeRef.current = now]. *)
Definition exportLeave (now : Q) (e : Engine) : Engine :=
  setStartTime now (onApp (setTicker true) e).

(** The loop, for the [n] remaining indices starting at [i]. *)
Fixpoint exportLoop (toBlob : nat -> option Blob) (config : DisplacementConfig)
  (totalFrames : Q) (n i : nat) (blobs : list Blob) : M (list Blob) :=
  match n with
  | O => ret blobs
  | S n' =>
      modify (exportStep config totalFrames i) ;;
      blob <- await (toBlobPromise (toBlob i)) ;;
      exportLoop toBlob config totalFrames n' (S i) (blobs ++ [blob])
  end.

(** [toBlob i] is the outcome of the extraction of frame [i]; [now] is the
    value [performance.now()] returns on line 253. *)
Definition exportFrames (toBlob : nat -> option Blob) (now : Q)
  (totalFrames : Q) : M (list Blob) :=
  config <- exportEnter ;;
  blobs <- exportLoop toBlob config totalFrames (tripCount totalFrames) 0 [] ;;
  modify (exportLeave now) ;;
  ret blobs.

(** **** The same function between suspension points *)

(** A call of [exportFrames] suspended at its [await]: the locals. *)
Record Pending : Type := mkPending {
  pd_config : DisplacementConfig;
  pd_total  : Q;
  pd_i      : nat;
  pd_blobs  : list Blob
}.

Inductive Outcome : Type :=
| Rejected (err : JS.Error)
| Resolved (blobs : list Blob)
| Suspended (p : Pending).

(** Run from the loop test for index [i] to the next [await] or to the end. *)
Definition advance (now : Q) (config : DisplacementConfig) (totalFrames : Q)
  (i : nat) (blobs : list Blob) (e : Engine) : Outcome * Engine :=
  if (i <? tripCount totalFrames)%nat then
    (Suspended {| pd_config := config; pd_total := totalFrames;
                  pd_i := i; pd_blobs := blobs |},
     exportStep config totalFrames i e)
  else (Resolved blobs, exportLeave now e).

(** The call itself, up to its first suspension point. *)
Definition call (now : Q) (totalFrames : Q) (e : Engine) : Outcome * Engine :=
  match exportEnter e with
  | (inl err, e') => (Rejected err, e')
  | (inr config, e') => advance now config totalFrames 0 [] e'
  end.

(** The pending [toBlob] callback fires with [b].  The application and the
    filter of the engine stand for the ones the call captured on line 213:
    they are the same objects as long as neither [loadImage] nor [destroy]
    runs while the call is pending. *)
Definition settle (now : Q) (p : Pending) (b : option Blob) (e : Engine)
  : Outcome * Engine :=
  match toBlobPromise b with
  | inl err => (Rejected err, e)
  | inr blob =>
      advance now (pd_config p) (pd_total p) (S (pd_i p))
              (pd_blobs p ++ [blob]) e
  end.

(** Drive one call to its end, with no other callback in between. *)
Fixpoint drive (toBlob : nat -> option Blob) (now : Q) (fuel : nat)
  (s : Outcome * Engine) : Outcome * Engine :=
  match fuel, s with
  | S fuel', (Suspended p, e) =>
      drive toBlob now fuel' (settle now p (toBlob (pd_i p)) e)
  | _, _ => s
  end.

End Hook.

(** ** [components/ExportPanel.tsx] *)

Module ExportPanel.

Inductive ExportType : Type := webm | png.

(** The [exporting] state. *)
Definition State := option ExportType.

(** [disabled={!hasImage || exporting !== null}] on both buttons. *)
Definition disabled (hasImage : bool) (exporting : State) : bool :=
  negb hasImage ||
  match exporting with Some _ => true | None => false end.

(** A click on the button for [type]: a disabled button fires no handler;
    otherwise [handleExport(type)] starts with [setExporting(type)]. *)
Definition click (hasImage : bool) (type : ExportType) (exporting : State)
  : option State :=
  if disabled hasImage exporting then None else Some (Some type).

(** The [finally] of [handleExport]. *)
Definition finished (exporting : State) : State := None.

(** [Math.round(config.loopDuration * config.fps)], line 21. *)
Definition totalFrames (config : DisplacementConfig) : Q :=
  JS.Math_round (loopDuration config * fps config).

End ExportPanel.

(** ** [lib/exportPngSequence.ts] *)

Module PngSequence.

Open Scope string_scope.

(** A JavaScript object used as a table from file names to contents, with
    its keys in insertion order (no key here is an array index). *)
Definition Zippable := list (string * list Byte.byte).

(** [files[key] = value]. *)
Fixpoint assign (key : string) (value : list Byte.byte) (files : Zippable)
  : Zippable :=
  match files with
  | [] => [(key, value)]
  | (k, v) :: rest =>
      if String.eqb k key then (k, value) :: rest
      else (k, v) :: assign key value rest
  end.

(** [`frame_${String(i).padStart(4, "0")}.png`]. *)
Definition frameName (i : nat) : string :=
  "frame_" ++ JSString.padStart0 4 (JSString.ofNat i) ++ ".png".

(** The loop of lines 14-18, from index [i] on. *)
Fixpoint addFrames (frames : list Blob) (i : nat) (files : Zippable) : Zippable :=
  match frames with
  | [] => files
  | frame :: rest =>
      addFrames rest (S i) (assign (frameName i) (blobParts frame) files)
  end.

Record ZipOptions : Type := mkZipOptions { level : Z }.

(** The two arguments of the [zipSync] call on line 21. *)
Definition zipFiles (frames : list Blob) : Zippable := addFrames frames 0 [].
Definition zipOptions : ZipOptions := {| level := 0 |}.

Section WithFflate.

(** [zipSync] of the [fflate] package. *)
Variable zipSync : Zippable -> ZipOptions -> list Byte.byte.

Definition exportPngSequence (frames : list Blob) : Blob :=
  let zipped := zipSync (zipFiles frames) zipOptions in
  {| blobParts := zipped; blobType := "application/zip" |}.

End WithFflate.

End PngSequence.

(** ** [lib/exportWebm.ts] *)

Module Webm.

Open Scope string_scope.

(** What the browser provides. *)
Record Browser : Type := mkBrowser {
  (* MediaRecorder.isTypeSupported *)
  isTypeSupported : string -> bool;
  (* createImageBitmap: the decoded frame, or a rejection *)
  createImageBitmap : Blob -> JS.Error + Blob;
  (* recorder.start() on a recorder created with the given mimeType and bit
     rate: it returns, or throws *)
  start : string -> Z -> JS.Error + unit;
  (* that recorder, once started, run to stop() over the frames pushed with
     requestFrame(): the [dataavailable] payloads, or the [error] event *)
  record : string -> Z -> list Blob -> JS.Error + list Blob
}.

(** The [DOMException] named [NotSupportedError]. *)
Definition NotSupportedError : JS.Error := JS.mkError "NotSupportedError".

(** [new MediaRecorder(stream, { mimeType, videoBitsPerSecond })], lines
    31-34: the constructor throws a [NotSupportedError] for a type that
    [isTypeSupported] rejects. *)
Definition newMediaRecorder (browser : Browser) (mimeType : string)
  (videoBitsPerSecond : Z) : JS.Error + unit :=
  if isTypeSupported browser mimeType then inr tt
  else inl NotSupportedError.

(** Lines 26-28. *)
Definition mimeType (browser : Browser) : string :=
  if isTypeSupported browser "video/webm;codecs=vp9"
  then "video/webm;codecs=vp9"
  else "video/webm".

(** Lines 50-62: every frame is decoded, drawn and pushed, in order (the
    pause of [1000 / fps] ms after each push is not part of the model). *)
Fixpoint pushFrames (browser : Browser) (frames : list Blob)
  : JS.Error + list Blob :=
  match frames with
  | [] => inr []
  | frameBlob :: rest =>
      match createImageBitmap browser frameBlob with
      | inl err => inl err
      | inr bitmap =>
          match pushFrames browser rest with
          | inl err => inl err
          | inr pushed => inr (bitmap :: pushed)
          end
      end
  end.

(** [if (e.data.size > 0) chunks.push(e.data)]. *)
Definition keepChunk (data : Blob) : bool :=
  match blobParts data with [] => false | _ :: _ => true end.

(** The recorder is created and started before the first frame is
    decoded (lines 31 and 47, then the loop of line 50). *)
Definition exportWebm (browser : Browser) (frames : list Blob)
  (width height : Z) (fps : Q) : JS.Error + Blob :=
  let mimeType := mimeType browser in
  match newMediaRecorder browser mimeType 8000000 with
  | inl err => inl err
  | inr _ =>
      match start browser mimeType 8000000 with
      | inl err => inl err
      | inr _ =>
          match pushFrames browser frames with
          | inl err => inl err
          | inr pushed =>
              match record browser mimeType 8000000 pushed with
              | inl err => inl err
              | inr data =>
                  let chunks := filter keepChunk data in
                  inr {| blobParts := List.concat (map blobParts chunks);
                         blobType := mimeType |}
              end
          end
      end
  end.

End Webm.

(** ** [app/page.tsx]: the two export handlers *)

Module Page.

Import Eff.
Local Open Scope eff_scope.
Open Scope string_scope.

(** A call of [download(blob, filename)]. *)
Definition Download : Type := Blob * string.

Section WithFflate.

Variable zipSync :
  PngSequence.Zippable -> PngSequence.ZipOptions -> list Byte.byte.

(** [handleExportPng]; [config] is the page's copy of the configuration. *)
Definition handleExportPng (config : DisplacementConfig)
  (toBlob : nat -> option Blob) (now : Q) : M Download :=
  let totalFrames := JS.Math_round (loopDuration config * fps config) in
  frames <- Hook.exportFrames toBlob now totalFrames ;;
  let blob := PngSequence.exportPngSequence zipSync frames in
  ret (blob, "afterink-frames.zip").

End WithFflate.

(** [handleExportWebm]; without [imageSize] it returns at once. *)
Definition handleExportWebm (browser : Webm.Browser)
  (config : DisplacementConfig) (imageSize : option (Z * Z))
  (toBlob : nat -> option Blob) (now : Q) : M (option Download) :=
  match imageSize with
  | None => ret None
  | Some (width, height) =>
      let totalFrames := JS.Math_round (loopDuration config * fps config) in
      frames <- Hook.exportFrames toBlob now totalFrames ;;
      blob <- await (Webm.exportWebm browser frames width height (fps config)) ;;
      ret (Some (blob, "afterink-export.webm"))
  end.

End Page.

(** ** [lib/displacementShader.ts]: the fragment shader

    GLSL [float]s are real numbers here; [vec2], [vec3] and [vec4] are
    tuples. *)

Module Shader.

Local Open Scope R_scope.

Definition vec2 : Type := R * R.
Definition vec3 : Type := R * R * R.
Definition vec4 : Type := R * R * R * R.

(** The [.a] component. *)
Definition alpha (c : vec4) : R := snd c.

(** *** Built-in functions *)

Definition floor (x : R) : R := IZR (Int_part x).
Definition fract (x : R) : R := x - floor x.
Definition mix (x y a : R) : R := x * (1 - a) + y * a.
Definition clamp (x lo hi : R) : R := Rmin (Rmax x lo) hi.
Definition smoothstep (edge0 edge1 x : R) : R :=
  let t := clamp ((x - edge0) / (edge1 - edge0)) 0 1 in
  t * t * (3 - 2 * t).
Definition dot2 (v w : vec2) : R := fst v * fst w + snd v * snd w.
Definition length2 (v : vec2) : R := sqrt (dot2 v v).

(** [int(x)]: conversion to integer drops the fractional part. *)
Definition int (x : R) : Z :=
  if Rle_dec 0 x then Int_part x else (- Int_part (- x))%Z.

Definition add2 (v w : vec2) : vec2 := (fst v + fst w, snd v + snd w).
Definition scale2 (v : vec2) (k : R) : vec2 := (fst v * k, snd v * k).
Definition mul2 (v w : vec2) : vec2 := (fst v * fst w, snd v * snd w).

Definition map3 (f : R -> R) (v : vec3) : vec3 :=
  let '(x, y, z) := v in (f x, f y, f z).
Definition zip3 (f : R -> R -> R) (v w : vec3) : vec3 :=
  let '(x, y, z) := v in let '(x', y', z') := w in (f x x', f y y', f z z').
Definition dot3 (v w : vec3) : R :=
  let '(x, y, z) := v in let '(x', y', z') := w in x * x' + y * y' + z * z'.

(** *** Simplex noise (lines 329-377) *)

Definition mod289 (x : R) : R := x - floor (x * (1 / 289)) * 289.

Definition permute (x : vec3) : vec3 :=
  map3 (fun c => mod289 ((c * 34 + 1) * c)) x.

Definition Cx : R := 211324865405187 / 1000000000000000.
Definition Cy : R := 366025403784439 / 1000000000000000.
Definition Cz : R := - (577350269189626 / 1000000000000000).
Definition Cw : R := 24390243902439 / 1000000000000000.

Definition snoise (v : vec2) : R :=
  let '(vx, vy) := v in
  (* first corner *)
  let s := dot2 v (Cy, Cy) in
  let ix := floor (vx + s) in
  let iy := floor (vy + s) in
  let u := dot2 (ix, iy) (Cx, Cx) in
  let x0x := vx - ix + u in
  let x0y := vy - iy + u in
  (* other corners *)
  let '(i1x, i1y) := if Rgt_dec x0x x0y then (1, 0) else (0, 1) in
  let x12x := x0x + Cx - i1x in
  let x12y := x0y + Cx - i1y in
  let x12z := x0x + Cz in
  let x12w := x0y + Cz in
  (* permutations *)
  let ix := mod289 ix in
  let iy := mod289 iy in
  let p := permute
             (zip3 Rplus
                (map3 (fun c => c + ix) (permute (iy + 0, iy + i1y, iy + 1)))
                (0, i1x, 1)) in
  let m := map3 (fun c => Rmax (1 / 2 - c) 0)
             (dot2 (x0x, x0y) (x0x, x0y),
              dot2 (x12x, x12y) (x12x, x12y),
              dot2 (x12z, x12w) (x12z, x12w)) in
  let m := zip3 Rmult m m in
  let m := zip3 Rmult m m in
  let x := map3 (fun c => 2 * fract (c * Cw) - 1) p in
  let h := map3 (fun c => Rabs c - 1 / 2) x in
  let ox := map3 (fun c => floor (c + 1 / 2)) x in
  let a0 := zip3 Rminus x ox in
  let m := zip3 Rmult m
             (map3 (fun c => 179284291400159 / 100000000000000
                             - 85373472095314 / 100000000000000 * c)
                   (zip3 Rplus (zip3 Rmult a0 a0) (zip3 Rmult h h))) in
  let '(a0x, a0y, a0z) := a0 in
  let '(hx, hy, hz) := h in
  let g := (a0x * x0x + hx * x0y,
            a0y * x12x + hy * x12y,
            a0z * x12z + hz * x12w) in
  130 * dot3 m g.

(** *** FBM (lines 384-398)

    [fuel] counts the iterations the constant loop bound still allows. *)

Fixpoint fbmLoop (fuel : nat) (i octaves : Z) (p : vec2)
  (value amplitude frequency : R) : R :=
  match fuel with
  | O => value
  | S fuel' =>
      if (i >=? octaves)%Z then value
      else
        fbmLoop fuel' (i + 1)%Z octaves p
                (value + amplitude * snoise (scale2 p frequency))
                (amplitude * (1 / 2))
                (frequency * 2)
  end.

(** [fbm] reads the uniform [uOctaves]. *)
Definition fbm (uOctaves : R) (p : vec2) : R :=
  let octaves := int uOctaves in
  fbmLoop 8 0%Z octaves p 0 (1 / 2) 1.

(** *** [main] (lines 402-442) *)

Record Uniforms : Type := mkUniforms {
  uResolution    : vec2;
  uTimeVec       : vec2;
  uAmountPx      : R;
  uSize          : R;
  uOctaves       : R;
  uSpeed         : R;
  uSeed          : R;
  uEdgeStrength  : R;
  uEdgeThreshold : R
}.

Section Fragment.

Variable u : Uniforms.
Variable uSampler : vec2 -> vec4.     (* texture2D(uSampler, .) *)
Variable vTextureCoord : vec2.

Definition pixelSize : vec2 :=
  (1 / fst (uResolution u), 1 / snd (uResolution u)).

Definition circularTime : vec2 := scale2 (uTimeVec u) (uSpeed u).

Definition noiseCoord : vec2 :=
  let uv := vTextureCoord in
  let q := scale2 (mul2 uv (uResolution u)) (/ uSize u) in
  let q := add2 q circularTime in
  (fst q + uSeed u, snd q + uSeed u).

Definition noiseX : R := fbm (uOctaves u) noiseCoord.
Definition noiseY : R := fbm (uOctaves u) (add2 noiseCoord (43, 17)).

(** Line 421: the displacement before the edge mask is applied. *)
Definition displacementUnmasked : vec2 :=
  mul2 (scale2 (noiseX, noiseY) (uAmountPx u)) pixelSize.

Definition gradient : R :=
  let uv := vTextureCoord in
  let aL := alpha (uSampler (add2 uv (- fst pixelSize, 0))) in
  let aR := alpha (uSampler (add2 uv (fst pixelSize, 0))) in
  let aU := alpha (uSampler (add2 uv (0, - snd pixelSize))) in
  let aD := alpha (uSampler (add2 uv (0, snd pixelSize))) in
  length2 (aR - aL, aD - aU).

Definition edgeMask : R :=
  smoothstep (uEdgeThreshold u) (uEdgeThreshold u + 15 / 100) gradient.

(** Line 436: [displacement *= mix(1.0, edgeMask, uEdgeStrength)]. *)
Definition displacement : vec2 :=
  scale2 displacementUnmasked (mix 1 edgeMask (uEdgeStrength u)).

(** [gl_FragColor]. *)
Definition main : vec4 :=
  let uv := vTextureCoord in
  let color := uSampler (add2 uv displacement) in
  color.

End Fragment.

(** The uniforms with [uEdgeStrength] set to [s]. *)
Definition withEdgeStrength (s : R) (u : Uniforms) : Uniforms :=
  {| uResolution := uResolution u; uTimeVec := uTimeVec u;
     uAmountPx := uAmountPx u; uSize := uSize u; uOctaves := uOctaves u;
     uSpeed := uSpeed u; uSeed := uSeed u;
     uEdgeStrength := s; uEdgeThreshold := uEdgeThreshold u |}.

End Shader.

(** The values the hook stores in [filter.uniforms], as the shader reads
    them. *)
Definition shaderUniforms (u : Uniforms) : Shader.Uniforms :=
  {| Shader.uResolution := (Q2R (fst (uResolution u)), Q2R (snd (uResolution u)));
     Shader.uTimeVec := uTimeVec u;
     Shader.uAmountPx := Q2R (uAmountPx u);
     Shader.uSize := Q2R (uSize u);
     Shader.uOctaves := Q2R (uOctaves u);
     Shader.uSpeed := Q2R (uSpeed u);
     Shader.uSeed := Q2R (uSeed u);
     Shader.uEdgeStrength := Q2R (uEdgeStrength u);
     Shader.uEdgeThreshold := Q2R (uEdgeThreshold u) |}.

(** ** The FBM sum as the specification words it

    [fbm(coord, octaves)] is the sum, over octave [i] from [0] to
    [min(octaves, 8) - 1], of [amplitude_i * noise2D(coord * frequency_i)];
    the amplitude starts at 0.5 and halves each octave, the frequency starts
    at 1.0 and doubles each octave. *)

Module FbmSpec.

Local Open Scope R_scope.

Fixpoint amplitude (i : nat) : R :=
  match i with
  | O => 1 / 2
  | S k => amplitude k / 2
  end.

Fixpoint frequency (i : nat) : R :=
  match i with
  | O => 1
  | S k => 2 * frequency k
  end.

Definition octaveCount (octaves : Z) : nat := Z.to_nat (Z.min octaves 8).

Definition term (noise2D : Shader.vec2 -> R) (coord : Shader.vec2) (i : nat) : R :=
  amplitude i * noise2D (Shader.scale2 coord (frequency i)).

Definition fbm (noise2D : Shader.vec2 -> R) (coord : Shader.vec2) (octaves : Z)
  : R :=
  fold_right Rplus 0 (map (term noise2D coord) (seq 0 (octaveCount octaves))).

End FbmSpec.

(** ** Observations on an engine state *)

(** State of the live ticker, when there is an application. *)
Definition tickerOf (e : Engine) : option bool :=
  option_map tickerStarted (pixi_app (pixiRef e)).

(** Both refs that [exportFrames] needs are set. *)
Definition initialized (e : Engine) : Prop :=
  pixi_app (pixiRef e) <> None /\ pixi_filter (pixiRef e) <> None.

(** The time vector currently stored in the filter. *)
Definition timeVecOf (e : Engine) : option (R * R) :=
  option_map (fun f => uTimeVec (uniforms f)) (pixi_filter (pixiRef e)).

(** A settled call, as the result of the sequential function. *)
Definition asResult (s : Hook.Outcome * Engine)
  : option ((JS.Error + list Blob) * Engine) :=
  match s with
  | (Hook.Rejected err, e) => Some (inl err, e)
  | (Hook.Resolved blobs, e) => Some (inr blobs, e)
  | (Hook.Suspended _, _) => None
  end.

(** ** Calls of [exportFrames] that are in flight

    [InFlight p e]: some call of [exportFrames] has been made, has not yet
    settled, and is suspended at its [await] with locals [p] in engine state
    [e]. *)

Inductive InFlight : Hook.Pending -> Engine -> Prop :=
| InFlight_called (now totalFrames : Q) (e e1 : Engine) (p : Hook.Pending) :
    Hook.call now totalFrames e = (Hook.Suspended p, e1) ->
    InFlight p e1
| InFlight_settled (now : Q) (b : option Blob) (e e1 : Engine)
    (p p1 : Hook.Pending) :
    InFlight p e ->
    Hook.settle now p b e = (Hook.Suspended p1, e1) ->
    InFlight p1 e1.

(** ** The archive table as the specification words it

    One entry per frame, in frame order; the entry of the frame with index
    [j] is named by [j] and holds that frame's bytes.  [i] is the index of
    the first frame of the list. *)

Definition entries (i : nat) (frames : list Blob) : PngSequence.Zippable :=
  map (fun jf => (PngSequence.frameName (fst jf), blobParts (snd jf)))
      (combine (seq i (List.length frames)) frames).

(** ** A decision procedure used for frame names *)

(** [shortUpTo n d]: the [n] numerals [d], [d + 1], ... (little-endian, the
    form in which [Nat.to_uint] builds them) have at most four digits. *)
Fixpoint shortUpTo (n : nat) (d : Decimal.uint) : bool :=
  match n with
  | O => true
  | S n' => (Decimal.nb_digits d <=? 4)%nat
            && shortUpTo n' (Decimal.Little.succ d)
  end.

(** ** Sample values *)

Module Sample.

(** A mounted engine with a 100 x 100 image loaded at time 0. *)
Definition ready : Engine :=
  snd (Hook.loadImage (ImageElement 100 100)
         (Hook.init false 100 100 0 (Hook.effectStart Hook.initialEngine))).

(** A PNG blob whose content is the single byte given. *)
Definition pngBlob (b : Byte.byte) : Blob :=
  {| blobParts := [b]; blobType := "image/png" |}.

(** A browser whose PNG encoder always delivers. *)
Definition toBlobOk (i : nat) : option Blob := Some (pngBlob Byte.x2a).

(** A browser whose PNG encoder delivers [null]. *)
Definition toBlobNull (i : nat) : option Blob := None.

(** A browser without VP9 that records plain WebM: [isTypeSupported]
    accepts ["video/webm"] only, and the recorder emits the pushed frames. *)
Definition browserWithoutVp9 : Webm.Browser :=
  {| Webm.isTypeSupported := fun type => String.eqb type "video/webm";
     Webm.createImageBitmap := fun b => inr b;
     Webm.start := fun _ _ => inr tt;
     Webm.record := fun _ _ pushed => inr pushed |}.

(** A browser whose [MediaRecorder] supports no WebM type at all. *)
Definition browserWithoutWebm : Webm.Browser :=
  {| Webm.isTypeSupported := fun _ => false;
     Webm.createImageBitmap := fun b => inr b;
     Webm.start := fun _ _ => inr tt;
     Webm.record := fun _ _ pushed => inr pushed |}.

(** Two settings the controls offer: a loop of 2.5 s at 6 frames per
    second, with posterize at 6 steps per second and with posterize off. *)
Definition stopMotion : DisplacementConfig :=
  {| amountPx := 4; size := 20; octaves := 3; speed := 1; seed := 0;
     edgeStrength := 0; edgeThreshold := 1 # 10; loopDuration := 5 # 2;
     fps := 6; bgTransparent := true; bgColor := "#ffffff";
     posterize := 6 |}.

Definition smooth : DisplacementConfig :=
  {| amountPx := 4; size := 20; octaves := 3; speed := 1; seed := 0;
     edgeStrength := 0; edgeThreshold := 1 # 10; loopDuration := 5 # 2;
     fps := 6; bgTransparent := true; bgColor := "#ffffff";
     posterize := 0 |}.

(** A stand-in for [zipSync]: the stored contents, one after the other. *)
Definition zipStore (files : PngSequence.Zippable)
  (options : PngSequence.ZipOptions) : list Byte.byte :=
  List.concat (map snd files).

(** Shader uniforms of the default configuration on a 100 x 100 image, at
    phase 0. *)
Definition defaultUniforms : Shader.Uniforms :=
  {| Shader.uResolution := (100, 100)%R; Shader.uTimeVec := (1, 0)%R;
     Shader.uAmountPx := 4%R; Shader.uSize := 20%R; Shader.uOctaves := 3%R;
     Shader.uSpeed := 1%R; Shader.uSeed := 0%R;
     Shader.uEdgeStrength := 0%R; Shader.uEdgeThreshold := (1 / 10)%R |}.

(** A fully opaque white texture. *)
Definition opaque (uv : Shader.vec2) : Shader.vec4 := (1, 1, 1, 1)%R.

End Sample.

(** ** [components/PreviewCanvas.tsx]: display size and zoom *)

Module PreviewCanvas.

(** [Math.min]. *)
Definition min2 (a b : Q) : Q := if Qle_bool a b then a else b.
Definition min3 (a b c : Q) : Q := min2 (min2 a b) c.

(** [updateSize] (lines 31-49): the CSS size given to the canvas, or [None]
    when the function returns without setting it.  [cw], [ch] are the
    container's client size, [aw], [ah] the canvas's pixel size, [zoom] the
    selected zoom level, if any. *)
Definition updateSize (cw ch aw ah : Q) (zoom : option Q) : option (Q * Q) :=
  if Qeq_bool aw 0 || Qeq_bool ah 0 then None
  else
    match zoom with
    | Some z => Some (aw * (z / 100), ah * (z / 100))
    | None =>
        let scale := min3 (cw / aw) (ch / ah) 1 in
        Some (aw * scale, ah * scale)
    end.

End PreviewCanvas.

(** ** [app/page.tsx]: the page state and its handlers *)

Module PageState.

Record State : Type := mkState {
  config    : DisplacementConfig;
  hasImage  : bool;
  imageSize : option (Z * Z)
}.

(** Lines 15-22. *)
Definition initial : State :=
  {| config := DEFAULT_CONFIG; hasImage := false; imageSize := None |}.

(** [handleImageLoaded] (lines 26-41), on the page state and the engine. *)
Definition handleImageLoaded (source : Source) (s : State) (e : Engine)
  : State * Engine :=
  let e' := snd (Hook.loadImage source e) in
  ({| config := config s; hasImage := true;
      imageSize := Some (Hook.sourceSize source) |},
   e').

(** [handleConfigChange] (lines 44-53). *)
Definition handleConfigChange (partial : PartialConfig) (s : State) (e : Engine)
  : State * Engine :=
  let next := Hook.merge (config s) partial in
  let e' := snd (Hook.updateConfig partial e) in
  ({| config := next; hasImage := hasImage s; imageSize := imageSize s |}, e').

End PageState.

(** ** [components/ControlsPanel.tsx]: the values the loop controls offer *)

Module Controls.

(** The duration slider: 2 to 6 in steps of 0.5. *)
Definition loopDurations : list Q :=
  [2; 5 # 2; 3; 7 # 2; 4; 9 # 2; 5; 11 # 2; 6].

(** The options of the frame-rate select. *)
Definition frameRates : list Q := [4; 6; 8; 12; 24; 30].

(** The posterize slider: 0 to 24 in steps of 1. *)
Definition posterizes : list Q :=
  map (fun k => inject_Z (Z.of_nat k)) (seq 0 25).

(** The default configuration with the three loop controls set. *)
Definition setting (duration rate steps : Q) : DisplacementConfig :=
  {| amountPx := 4; size := 20; octaves := 3; speed := 1; seed := 0;
     edgeStrength := 0; edgeThreshold := 1 # 10; loopDuration := duration;
     fps := rate; bgTransparent := true; bgColor := "#ffffff";
     posterize := steps |}.

(** The number of frames the export loop runs through at a setting. *)
Definition frames (config : DisplacementConfig) : nat :=
  Hook.tripCount (ExportPanel.totalFrames config).

(** The elapsed time, in seconds, at which the live clock shows frame [i]:
    the Number of [i / fps]. *)
Definition frameTime (config : DisplacementConfig) (i : nat) : Binary64.float :=
  PrimFloat.div (Binary64.ofNat i) (Binary64.number (fps config)).

(** Checks on the binary64 clocks, as boolean functions. *)

(** The export phases of a setting, frame by frame. *)
Definition exportPhases (config : DisplacementConfig) : list Binary64.float :=
  let N := Binary64.totalFrames config in
  map (fun i => Binary64.exportT config i N) (seq 0 (frames config)).

(** Every phase is in [0, 1) and not below the one before it. *)
Fixpoint inOrder (previous : Binary64.float) (phases : list Binary64.float)
  : bool :=
  match phases with
  | [] => true
  | t :: rest =>
      PrimFloat.leb (Binary64.ofZ 0) t
      && PrimFloat.ltb t (Binary64.ofZ 1)
      && PrimFloat.leb previous t
      && inOrder t rest
  end.

(** The frame count is the whole Number of [frames]; the first phase is 0;
    the phases are in order. *)
Definition exportInOrder (config : DisplacementConfig) : bool :=
  let phases := exportPhases config in
  PrimFloat.eqb (Binary64.totalFrames config) (Binary64.ofNat (frames config))
  && PrimFloat.eqb (hd (Binary64.ofZ 0) phases) (Binary64.ofZ 0)
  && inOrder (Binary64.ofZ 0) phases.

(** The live phase is 0 at elapsed time 0 and again after one loop. *)
Definition liveWraps (config : DisplacementConfig) : bool :=
  PrimFloat.eqb (Binary64.liveT config (Binary64.ofZ 0)) (Binary64.ofZ 0)
  && PrimFloat.eqb
       (Binary64.liveT config (Binary64.number (loopDuration config)))
       (Binary64.ofZ 0).

(** Frame [i] is exported at a phase other than the live one at its time. *)
Definition differs (config : DisplacementConfig) (i : nat) : bool :=
  negb (PrimFloat.eqb
          (Binary64.exportT config i (Binary64.totalFrames config))
          (Binary64.liveT config (frameTime config i))).

(** All settings with the given posterize values, and the number of their
    frames that differ. *)
Definition settings (steps : list Q) : list DisplacementConfig :=
  flat_map (fun duration =>
    flat_map (fun rate => map (setting duration rate) steps) frameRates)
    loopDurations.

Definition sumZ (l : list Z) : Z := fold_right Z.add 0%Z l.

Definition framesIn (configs : list DisplacementConfig) : Z :=
  sumZ (map (fun config => Z.of_nat (frames config)) configs).

Definition differing (configs : list DisplacementConfig) : Z :=
  sumZ
    (map (fun config =>
            Z.of_nat
              (List.length (filter (differs config) (seq 0 (frames config)))))
         configs).

End Controls.

(** ** A rational lower bound of pi

    The partial sums of the alternating series
    [pi / 4 = 2 * atan (1 / 3) + atan (1 / 7)], in exact rationals. *)

Module PiBound.

Fixpoint pow (x : Q) (n : nat) : Q :=
  match n with
  | O => 1
  | S k => x * pow x k
  end.

Definition term (i : nat) : Q :=
  pow (- (1)) i
  * (2 * (pow (1 # 3) (2 * i + 1) / inject_Z (Z.of_nat (2 * i + 1)))
     + pow (1 # 7) (2 * i + 1) / inject_Z (Z.of_nat (2 * i + 1))).


End PiBound.

(** ** Reading the archive table *)

Module Zip.

(** [files[key]]: the value stored under [key], if any. *)
Fixpoint get (key : string) (files : PngSequence.Zippable)
  : option (list Byte.byte) :=
  match files with
  | [] => None
  | (k, v) :: rest => if String.eqb k key then Some v else get key rest
  end.

End Zip.

(** ** Engine states up to what a frame changes *)

Module Frame.

(** The engine with the two things a rendered frame writes -- the filter's
    [uTimeVec] and the canvas contents -- set to fixed values. *)
Definition forget (e : Engine) : Engine :=
  Hook.onApp (Hook.setView None) (Hook.onFilter (Hook.setTimeVec (1%R, 0%R)) e).

(** The same, with the ticker state and the time origin fixed as well. *)
Definition forgetClock (e : Engine) : Engine :=
  Hook.setStartTime 0 (Hook.onApp (Hook.setTicker true) (forget e)).

(** The filter's uniforms are the values of the engine's configuration and
    its padding is [Math.ceil(amountPx) + 2]. *)
Definition synced (e : Engine) : Prop :=
  forall f, pixi_filter (pixiRef e) = Some f ->
    uAmountPx (uniforms f) = amountPx (configRef e)
    /\ uSize (uniforms f) = size (configRef e)
    /\ uOctaves (uniforms f) = octaves (configRef e)
    /\ uSpeed (uniforms f) = speed (configRef e)
    /\ uSeed (uniforms f) = seed (configRef e)
    /\ uEdgeStrength (uniforms f) = edgeStrength (configRef e)
    /\ uEdgeThreshold (uniforms f) = edgeThreshold (configRef e)
    /\ padding f = JS.Math_ceil (amountPx (configRef e)) + 2.

End Frame.

(** ** Shader uniforms with one value replaced *)

Module With.

Definition timeVec (v : Shader.vec2) (u : Shader.Uniforms) : Shader.Uniforms :=
  {| Shader.uResolution := Shader.uResolution u; Shader.uTimeVec := v;
     Shader.uAmountPx := Shader.uAmountPx u; Shader.uSize := Shader.uSize u;
     Shader.uOctaves := Shader.uOctaves u; Shader.uSpeed := Shader.uSpeed u;
     Shader.uSeed := Shader.uSeed u;
     Shader.uEdgeStrength := Shader.uEdgeStrength u;
     Shader.uEdgeThreshold := Shader.uEdgeThreshold u |}.

End With.

(** ** Further sample values *)

Module More.

(** The default uniforms with the speed set to 0. *)
Definition stillUniforms : Shader.Uniforms :=
  {| Shader.uResolution := (100, 100)%R; Shader.uTimeVec := (1, 0)%R;
     Shader.uAmountPx := 4%R; Shader.uSize := 20%R; Shader.uOctaves := 3%R;
     Shader.uSpeed := 0%R; Shader.uSeed := 0%R;
     Shader.uEdgeStrength := 0%R; Shader.uEdgeThreshold := (1 / 10)%R |}.

(** The default uniforms with the amount set to 0. *)
Definition flatUniforms : Shader.Uniforms :=
  {| Shader.uResolution := (100, 100)%R; Shader.uTimeVec := (1, 0)%R;
     Shader.uAmountPx := 0%R; Shader.uSize := 20%R; Shader.uOctaves := 3%R;
     Shader.uSpeed := 1%R; Shader.uSeed := 0%R;
     Shader.uEdgeStrength := 0%R; Shader.uEdgeThreshold := (1 / 10)%R |}.

(** A texture that is transparent on the left half and opaque on the
    right. *)
Definition halfOpaque (q : Shader.vec2) : Shader.vec4 :=
  (0, 0, 0, if Rle_dec (fst q) (1 / 2) then 0 else 1)%R.

(** A browser whose decoder rejects empty blobs. *)
Definition strictBrowser : Webm.Browser :=
  {| Webm.isTypeSupported := fun _ => true;
     Webm.createImageBitmap :=
       fun b => match blobParts b with
                | [] => inl (JS.mkError "The source image could not be decoded.")
                | _ => inr b
                end;
     Webm.start := fun _ _ => inr tt;
     Webm.record := fun _ _ pushed => inr pushed |}.

(** The default configuration with posterize at 4 steps per second. *)
Definition posterized : DisplacementConfig :=
  {| amountPx := 4; size := 20; octaves := 3; speed := 1; seed := 0;
     edgeStrength := 0; edgeThreshold := 1 # 10; loopDuration := 3;
     fps := 24; bgTransparent := true; bgColor := "#ffffff";
     posterize := 4 |}.

End More.
(* ===================================================================== *)
(** * Part II.  Properties                                                *)
(* ===================================================================== *)

(** ** Arithmetic of [JS] numbers *)

Lemma gt_true_iff (x y : Q) : JS.gt x y = true <-> (y < x)%Q.
Proof.
  unfold JS.gt. rewrite negb_true_iff.
  split; intro H.
  - apply Qnot_le_lt. intro Hle. apply Qle_bool_iff in Hle. congruence.
  - destruct (Qle_bool x y) eqn:E; [|reflexivity].
    apply Qle_bool_iff in E. exfalso. apply (Qlt_not_le _ _ H E).
Qed.

Lemma trunc_unit_interval (x : Q) : (0 <= x)%Q -> (x < 1)%Q -> JS.trunc x = 0%Z.
Proof.
  destruct x as [n d]. unfold Qle, Qlt, JS.trunc; simpl. intros H0 H1.
  apply Z.quot_small. lia.
Qed.

Lemma rem_one_unit_interval (x : Q) :
  (0 <= x)%Q -> (x < 1)%Q -> (JS.rem x 1 == x)%Q.
Proof.
  intros H0 H1. unfold JS.rem.
  assert (E : (x / 1 == x)%Q) by (field).
  assert (T : JS.trunc (x / 1) = 0%Z).
  { apply trunc_unit_interval; rewrite E; assumption. }
  rewrite T. ring.
Qed.

Lemma trunc_floor (x : Q) : (0 <= x)%Q -> JS.trunc x = Qfloor x.
Proof.
  destruct x as [n d]. unfold Qle, JS.trunc, Qfloor; simpl. intro H.
  apply Z.quot_div_nonneg; lia.
Qed.

Lemma trunc_ceiling (x : Q) : (x <= 0)%Q -> JS.trunc x = Qceiling x.
Proof.
  destruct x as [n d]. unfold Qle, JS.trunc, Qceiling, Qfloor; simpl. intro H.
  rewrite <- (Z.opp_involutive n) at 1.
  rewrite Z.quot_opp_l by lia. f_equal.
  apply Z.quot_div_nonneg; lia.
Qed.

Lemma trunc_comp (x y : Q) : (x == y)%Q -> JS.trunc x = JS.trunc y.
Proof.
  intro H. destruct (Qlt_le_dec x 0) as [Hneg|Hpos].
  - apply Qlt_le_weak in Hneg.
    rewrite (trunc_ceiling x Hneg).
    rewrite H in Hneg. rewrite (trunc_ceiling y Hneg).
    unfold Qceiling. now rewrite H.
  - rewrite (trunc_floor x Hpos).
    rewrite H in Hpos. rewrite (trunc_floor y Hpos).
    now rewrite H.
Qed.

Lemma rem_comp (x y : Q) : (x == y)%Q -> (JS.rem x 1 == JS.rem y 1)%Q.
Proof.
  intro H. unfold JS.rem.
  rewrite (trunc_comp (x / 1) (y / 1)) by now rewrite H.
  now rewrite H.
Qed.

Lemma Math_floor_comp (x y : Q) : (x == y)%Q -> JS.Math_floor x = JS.Math_floor y.
Proof. intro H. unfold JS.Math_floor. now rewrite H. Qed.

(** ** Phase clock: export mode against live mode *)

Section PhaseParity.

Variable config : DisplacementConfig.
Variable i : nat.
Variable N : Z.

(** [N] frames at [fps] frames per second last exactly [loopDuration]
    seconds, and [i] is one of the [N] frame indices. *)
Hypothesis consistent : (inject_Z N == loopDuration config * fps config)%Q.
Hypothesis index_in_range : (Z.of_nat i < N)%Z.

Let iQ : Q := inject_Z (Z.of_nat i).

Lemma total_positive : (0 < inject_Z N)%Q.
Proof. unfold Qlt; simpl. lia. Qed.

Lemma rate_and_duration_nonzero :
  ~ (fps config == 0)%Q /\ ~ (loopDuration config == 0)%Q.
Proof.
  pose proof total_positive as HN. rewrite consistent in HN.
  split; intro E; rewrite E in HN.
  - rewrite Qmult_0_r in HN. now apply Qlt_irrefl in HN.
  - rewrite Qmult_0_l in HN. now apply Qlt_irrefl in HN.
Qed.

Lemma raw_phase_agrees :
  (iQ / fps config / loopDuration config == iQ / inject_Z N)%Q.
Proof.
  destruct rate_and_duration_nonzero as [Hf Hl].
  assert (HN : ~ (inject_Z N == 0)%Q).
  { intro E. pose proof total_positive as P. rewrite E in P.
    now apply Qlt_irrefl in P. }
  rewrite consistent in *. field. split; assumption.
Qed.

Lemma raw_phase_unit_interval :
  (0 <= iQ / inject_Z N)%Q /\ (iQ / inject_Z N < 1)%Q.
Proof.
  pose proof total_positive as HN.
  split.
  - apply Qle_shift_div_l; [assumption|].
    rewrite Qmult_0_l. unfold iQ, Qle; simpl. lia.
  - apply Qlt_shift_div_r; [assumption|].
    rewrite Qmult_1_l. unfold iQ, Qlt; simpl. lia.
Qed.

Lemma live_raw_phase :
  (JS.rem (iQ / fps config / loopDuration config) 1 == iQ / inject_Z N)%Q.
Proof.
  destruct raw_phase_unit_interval as [H0 H1].
  rewrite <- raw_phase_agrees in H0, H1.
  rewrite rem_one_unit_interval by assumption.
  apply raw_phase_agrees.
Qed.

Lemma live_export_phase :
  (PhaseClock.liveT config (iQ / fps config)
   == PhaseClock.exportT config i (inject_Z N))%Q.
Proof.
  unfold PhaseClock.liveT, PhaseClock.exportT. fold iQ.
  destruct (JS.gt (posterize config) 0).
  - rewrite (Math_floor_comp
               (JS.rem (iQ / fps config / loopDuration config) 1
                * (posterize config * loopDuration config))
               (iQ / inject_Z N
                * (posterize config * loopDuration config))).
    + reflexivity.
    + now rewrite live_raw_phase.
  - apply live_raw_phase.
Qed.

End PhaseParity.

Lemma timeVec_comp (s t : Q) :
  (s == t)%Q -> PhaseClock.timeVec s = PhaseClock.timeVec t.
Proof. intro H. unfold PhaseClock.timeVec. now rewrite (Qeq_eqR _ _ H). Qed.

Lemma posterize_off (config : DisplacementConfig) :
  (posterize config == 0)%Q -> JS.gt (posterize config) 0 = false.
Proof.
  intro H. destruct (JS.gt (posterize config) 0) eqn:E; [|reflexivity].
  apply gt_true_iff in E. rewrite H in E. now apply Qlt_irrefl in E.
Qed.

(** In exact arithmetic the two clocks agree.  For a frame index [i] of an
    export of [N] frames, where [N] frames at [fps] span exactly one loop
    ([N = loopDuration * fps]), the rational phase of frame [i] equals the
    rational phase at elapsed time [i / fps]; with [posterize = 0] both are
    the raw phase. *)
Lemma exact_phases_agree
  (config : DisplacementConfig) (i : nat) (N : Z) :
  (inject_Z N == loopDuration config * fps config)%Q ->
  (Z.of_nat i < N)%Z ->
  (PhaseClock.exportT config i (inject_Z N)
   == PhaseClock.liveT config (inject_Z (Z.of_nat i) / fps config))%Q
  /\ PhaseClock.timeVec (PhaseClock.exportT config i (inject_Z N))
     = PhaseClock.timeVec
         (PhaseClock.liveT config (inject_Z (Z.of_nat i) / fps config))
  /\ ((posterize config == 0)%Q ->
      PhaseClock.exportT config i (inject_Z N)
      = (inject_Z (Z.of_nat i) / inject_Z N)%Q
      /\ PhaseClock.liveT config (inject_Z (Z.of_nat i) / fps config)
         = JS.rem (inject_Z (Z.of_nat i) / fps config / loopDuration config) 1).
Proof.
  intros Hc Hi.
  pose proof (live_export_phase config i N Hc Hi) as E.
  split; [symmetry; exact E|].
  split; [apply timeVec_comp; symmetry; exact E|].
  intro Hp. unfold PhaseClock.exportT, PhaseClock.liveT.
  rewrite (posterize_off config Hp). split; reflexivity.
Qed.

(** The page's frame count makes the export consistent with the live clock
    whenever [loopDuration * fps] is a whole number, as it is for every
    duration (multiples of 0.5 s) and frame rate (even) the controls offer. *)
Lemma totalFrames_consistent (config : DisplacementConfig) (N : Z) :
  (inject_Z N == loopDuration config * fps config)%Q ->
  ExportPanel.totalFrames config = inject_Z N.
Proof.
  intro H. unfold ExportPanel.totalFrames, JS.Math_round. f_equal.
  rewrite <- H.
  assert (E : Qfloor (inject_Z N + (1 # 2)) = N).
  { unfold Qfloor, inject_Z, Qplus; simpl.
    symmetry. apply Z.div_unique with (r := 1%Z); lia. }
  exact E.
Qed.

(** With [posterize = 4] and a 3 s loop at 24 fps, frames 0-5 share the first
    of the 12 quantised phases and frame 6 starts the second. *)
Example posterize_holds_then_snaps :
  let config := {| amountPx := 4; size := 20; octaves := 3; speed := 1;
                   seed := 0; edgeStrength := 0; edgeThreshold := 1 # 10;
                   loopDuration := 3; fps := 24; bgTransparent := true;
                   bgColor := "#ffffff"; posterize := 4 |} in
  map (fun i => Qred (PhaseClock.exportT config i 72)) [0; 5; 6; 11; 12; 71]%nat
  = [0; 0; 1 # 12; 1 # 12; 1 # 6; 11 # 12]%Q.
Proof. vm_compute. reflexivity. Qed.

(** The same export runs through exactly 12 distinct phases, [k / 12]. *)
Example posterize_twelve_states :
  let config := {| amountPx := 4; size := 20; octaves := 3; speed := 1;
                   seed := 0; edgeStrength := 0; edgeThreshold := 1 # 10;
                   loopDuration := 3; fps := 24; bgTransparent := true;
                   bgColor := "#ffffff"; posterize := 4 |} in
  map (fun i => Qred (PhaseClock.exportT config i 72)) (seq 0 72)
  = flat_map (fun k => repeat (Qred (inject_Z (Z.of_nat k) / 12)) 6) (seq 0 12).
Proof. vm_compute. reflexivity. Qed.

(** When [loopDuration * fps] is not a whole number the rounded frame count
    no longer spans one loop, and the two clocks drift apart: with a 2.5 s
    loop at 5 fps, frame 1 of 13 is at phase 1/13, the live clock at 0.2 s
    is at phase 2/25. *)
Example rounded_total_is_not_consistent :
  let config := {| amountPx := 4; size := 20; octaves := 3; speed := 1;
                   seed := 0; edgeStrength := 0; edgeThreshold := 1 # 10;
                   loopDuration := 5 # 2; fps := 5; bgTransparent := true;
                   bgColor := "#ffffff"; posterize := 0 |} in
  ExportPanel.totalFrames config = 13
  /\ Qred (PhaseClock.exportT config 1 13) = (1 # 13)%Q
  /\ Qred (PhaseClock.liveT config (1 / 5)) = (2 # 25)%Q.
Proof. vm_compute. repeat split; reflexivity. Qed.

(** ** The two clocks on binary64 numbers *)

(** C1.  The export phase of frame [i] is to equal the live phase at elapsed
    time [i / fps].  On the binary64 numbers the engine computes with it
    does not.  Take a 2.5 s loop at 6 frames per second with posterize at 6
    steps per second: the frame count is 15, and 15 frames span the loop
    exactly.  Frame 13 is exported at phase 13/15, while the live ticker at
    elapsed 13/6 s, where [t * stepsPerLoop] comes out just below 13, shows
    phase 12/15, one posterize step behind.  With posterize off the raw
    phases of frame 5 differ in the last bit. *)
Theorem export_phase_differs_from_live_phase :
  let N := Binary64.ofNat 15 in
  let at_frame := fun i : nat =>
    PrimFloat.div (Binary64.ofNat i) (Binary64.number (fps Sample.stopMotion)) in
  Binary64.totalFrames Sample.stopMotion = N
  /\ PrimFloat.mul (Binary64.number (loopDuration Sample.stopMotion))
                   (Binary64.number (fps Sample.stopMotion)) = N
  /\ Binary64.elapsed (Binary64.number (13000 # 6)) (Binary64.ofZ 0)
     = at_frame 13%nat
  /\ Binary64.exportT Sample.stopMotion 13 N = Binary64.number (13 # 15)
  /\ Binary64.liveT Sample.stopMotion (at_frame 13%nat)
     = Binary64.number (12 # 15)
  /\ Binary64.exportT Sample.stopMotion 13 N
     <> Binary64.liveT Sample.stopMotion (at_frame 13%nat)
  /\ Binary64.exportT Sample.smooth 5 N = Binary64.number (1 # 3)
  /\ Binary64.liveT Sample.smooth (at_frame 5%nat)
     = PrimFloat.next_up (Binary64.number (1 # 3)).
Proof.
  cbv zeta.
  assert (E : Binary64.exportT Sample.stopMotion 13 (Binary64.ofNat 15)
              = Binary64.number (13 # 15)) by (vm_compute; reflexivity).
  assert (L : Binary64.liveT Sample.stopMotion
                (PrimFloat.div (Binary64.ofNat 13)
                   (Binary64.number (fps Sample.stopMotion)))
              = Binary64.number (12 # 15)) by (vm_compute; reflexivity).
  split; [vm_compute; reflexivity|].
  split; [vm_compute; reflexivity|].
  split; [vm_compute; reflexivity|].
  split; [exact E|]. split; [exact L|].
  split.
  - rewrite E, L. intro H.
    apply (f_equal (fun x => PrimFloat.eqb x (Binary64.number (12 # 15)))) in H.
    vm_compute in H. discriminate H.
  - split; vm_compute; reflexivity.
Qed.

(** How often it happens.  With posterize off, over all durations and frame
    rates the controls offer, 562 of the 3024 exported frames are at a phase
    that differs from the live one in the last bits.  With posterize on, at
    a 2.5 s loop, over all frame rates and the posterize values 1 to 24, 40
    of the 5040 exported frames are a whole step away from the live one. *)
Example mismatches_over_the_controls :
  Controls.framesIn (Controls.settings [0%Q]) = 3024%Z
  /\ Controls.differing (Controls.settings [0%Q]) = 562%Z
  /\ Controls.framesIn
       (flat_map (fun rate =>
                    map (Controls.setting (5 # 2) rate) (tl Controls.posterizes))
                 Controls.frameRates)
     = 5040%Z
  /\ Controls.differing
       (flat_map (fun rate =>
                    map (Controls.setting (5 # 2) rate) (tl Controls.posterizes))
                 Controls.frameRates)
     = 40%Z.
Proof.
  split; [vm_compute; reflexivity|].
  split; [vm_compute; reflexivity|].
  split; vm_compute; reflexivity.
Qed.

(** The live product that is floored: just below 13 on binary64 numbers. *)
Example live_step_product_below_13 :
  let t := Binary64.rem1
             (PrimFloat.div
                (PrimFloat.div (Binary64.ofNat 13) (Binary64.ofNat 6))
                (Binary64.number (5 # 2))) in
  PrimFloat.mul t (Binary64.ofNat 15)
  = PrimFloat.next_down (Binary64.ofNat 13).
Proof. vm_compute. reflexivity. Qed.

(** ** The time vector *)

Lemma timeVec_TimeVector (t : Q) :
  PhaseClock.timeVec t = PhaseClock.TimeVector (Q2R t).
Proof. reflexivity. Qed.

(** *** [Math.PI] and pi *)







Lemma Math_PI_is_binary64 :
  (Binary64.toQ Binary64.Math_PI == JS.Math_PI_value)%Q.
Proof. vm_compute. reflexivity. Qed.




(** ** The engine: what each callback leaves in the refs *)

Lemma exportStep_ticker config total i e :
  tickerOf (Hook.exportStep config total i e) = tickerOf e.
Proof.
  unfold tickerOf, Hook.exportStep, Hook.render, Hook.onApp, Hook.onFilter,
    Hook.onPixi.
  simpl. now destruct (pixi_app (pixiRef e)).
Qed.

Lemma exportStep_startTime config total i e :
  startTimeRef (Hook.exportStep config total i e) = startTimeRef e.
Proof. reflexivity. Qed.

Lemma exportStep_config config total i e :
  configRef (Hook.exportStep config total i e) = configRef e.
Proof. reflexivity. Qed.

Lemma exportStep_initialized config total i e :
  initialized e -> initialized (Hook.exportStep config total i e).
Proof.
  unfold initialized, Hook.exportStep, Hook.render, Hook.onApp, Hook.onFilter,
    Hook.onPixi.
  simpl. intros [Ha Hf].
  destruct (pixi_app (pixiRef e)), (pixi_filter (pixiRef e));
    simpl; split; congruence.
Qed.

(** One iteration of the loop, unfolded. *)
Lemma exportLoop_S toBlob config total n i blobs e :
  Hook.exportLoop toBlob config total (S n) i blobs e
  = match Hook.toBlobPromise (toBlob i) with
    | inl err => (inl err, Hook.exportStep config total i e)
    | inr blob =>
        Hook.exportLoop toBlob config total n (S i) (blobs ++ [blob])
                        (Hook.exportStep config total i e)
    end.
Proof.
  simpl. unfold Eff.bind, Eff.modify, Eff.await.
  now destruct (Hook.toBlobPromise (toBlob i)).
Qed.

(** The loop never touches the ticker, the time origin or the config. *)
Lemma exportLoop_frame toBlob config total n :
  forall i blobs e,
    let r := Hook.exportLoop toBlob config total n i blobs e in
    tickerOf (snd r) = tickerOf e
    /\ startTimeRef (snd r) = startTimeRef e
    /\ configRef (snd r) = configRef e
    /\ (initialized e -> initialized (snd r)).
Proof.
  induction n as [|n IH]; intros i blobs e r; subst r.
  - simpl. tauto.
  - rewrite exportLoop_S.
    pose proof (exportStep_ticker config total i e) as T0.
    pose proof (exportStep_initialized config total i e) as I0.
    destruct (Hook.toBlobPromise (toBlob i)) as [err|blob]; simpl.
    + tauto.
    + destruct (IH (S i) (blobs ++ [blob])
                  (Hook.exportStep config total i e)) as (T & S' & C & I).
      rewrite T, S', C, T0. tauto.
Qed.

(** A failing extraction ends the loop with its error. *)
Lemma exportLoop_rejects toBlob config total n :
  forall i blobs e k,
    (k < n)%nat -> toBlob (i + k)%nat = None ->
    fst (Hook.exportLoop toBlob config total n i blobs e)
    = inl (JS.mkError "toBlob failed").
Proof.
  induction n as [|n IH]; intros i blobs e k Hk Hnone; [lia|].
  rewrite exportLoop_S.
  destruct (toBlob i) as [blob|] eqn:E; simpl.
  - destruct k as [|k].
    + rewrite Nat.add_0_r in Hnone. congruence.
    + apply (IH (S i) _ _ k); [lia|].
      now replace (S i + k)%nat with (i + S k)%nat by lia.
  - reflexivity.
Qed.

(** When every extraction delivers, the loop returns the blobs in frame
    order. *)
Lemma exportLoop_resolves toBlob config total n :
  forall i blobs e frames,
    fst (Hook.exportLoop toBlob config total n i blobs e) = inr frames ->
    exists new,
      frames = blobs ++ new
      /\ List.length new = n
      /\ forall k, (k < n)%nat ->
                   toBlob (i + k)%nat = Some (nth k new (mkBlob [] EmptyString)).
Proof.
  induction n as [|n IH]; intros i blobs e frames.
  - simpl. intro H. injection H as <-. exists []. rewrite app_nil_r.
    repeat split; auto. intros k Hk; lia.
  - rewrite exportLoop_S.
    destruct (toBlob i) as [blob|] eqn:E; simpl; [|discriminate].
    intro H. destruct (IH _ _ _ _ H) as (new & -> & Hlen & Hnth).
    exists (blob :: new). rewrite <- app_assoc. simpl.
    repeat split; auto.
    intros [|k] Hk.
    + now rewrite Nat.add_0_r.
    + replace (i + S k)%nat with (S i + k)%nat by lia. apply Hnth. lia.
Qed.

Lemma exportEnter_spec e :
  (initialized e
   /\ Hook.exportEnter e = (inr (configRef e), Hook.onApp (Hook.setTicker false) e))
  \/ (~ initialized e
      /\ Hook.exportEnter e = (inl (JS.mkError "Engine not initialized"), e)).
Proof.
  unfold Hook.exportEnter, initialized, Eff.bind, Eff.get, Eff.modify,
    Eff.ret, Eff.throw.
  destruct (pixi_app (pixiRef e)) as [a|], (pixi_filter (pixiRef e)) as [f|];
    simpl.
  - left. repeat split; congruence.
  - right. split; [intros [_ H]; congruence | reflexivity].
  - right. split; [intros [H _]; congruence | reflexivity].
  - right. split; [intros [H _]; congruence | reflexivity].
Qed.

Lemma stop_ticker e :
  initialized e -> tickerOf (Hook.onApp (Hook.setTicker false) e) = Some false.
Proof.
  unfold initialized, tickerOf, Hook.onApp, Hook.onPixi. simpl.
  intros [Ha _]. destruct (pixi_app (pixiRef e)); [reflexivity|congruence].
Qed.

Lemma stop_ticker_initialized e :
  initialized e -> initialized (Hook.onApp (Hook.setTicker false) e).
Proof.
  unfold initialized, Hook.onApp, Hook.onPixi. simpl.
  intros [Ha Hf]. destruct (pixi_app (pixiRef e)); simpl; split; congruence.
Qed.

(** An extraction failure leaves the live ticker stopped: the rejection
    skips lines 251-253. *)
Lemma exportFrames_rejected_leaves_ticker_stopped toBlob now total e k :
  initialized e ->
  (k < Hook.tripCount total)%nat -> toBlob k = None ->
  exists e',
    Hook.exportFrames toBlob now total e
    = (inl (JS.mkError "toBlob failed"), e')
    /\ tickerOf e' = Some false.
Proof.
  intros Hi Hk Hnone. unfold Hook.exportFrames.
  destruct (exportEnter_spec e) as [[_ E]|[N _]]; [|contradiction].
  unfold Eff.bind at 1. rewrite E.
  unfold Eff.bind at 1.
  pose proof (exportLoop_rejects toBlob (configRef e) total
                (Hook.tripCount total) 0 []
                (Hook.onApp (Hook.setTicker false) e) k Hk Hnone) as R.
  pose proof (exportLoop_frame toBlob (configRef e) total
                (Hook.tripCount total) 0 []
                (Hook.onApp (Hook.setTicker false) e)) as (T & _).
  destruct (Hook.exportLoop toBlob (configRef e) total (Hook.tripCount total)
              0 [] (Hook.onApp (Hook.setTicker false) e)) as [r e'].
  simpl in R, T. subst r. exists e'. split; [reflexivity|].
  rewrite T. now apply stop_ticker.
Qed.

Lemma ready_initialized : initialized Sample.ready.
Proof. unfold initialized. simpl. split; discriminate. Qed.

(** C3.  The live ticker, stopped on entry, is to be restarted before
    [exportFrames] returns or rejects.  The source restarts it only on
    return: when the extraction of a frame fails, the call rejects with
    "toBlob failed" and the ticker, running before the call, stays stopped;
    no later display refresh updates the preview. *)
Theorem failed_export_leaves_live_loop_paused :
  tickerOf Sample.ready = Some true
  /\ exists e',
       Hook.exportFrames Sample.toBlobNull 1000 1 Sample.ready
       = (inl (JS.mkError "toBlob failed"), e')
       /\ tickerOf e' = Some false
       /\ forall now, Hook.tick now e' = e'.
Proof.
  split; [reflexivity|].
  destruct (exportFrames_rejected_leaves_ticker_stopped
              Sample.toBlobNull 1000 1 Sample.ready 0)
    as (e' & E & T).
  - exact ready_initialized.
  - vm_compute. lia.
  - reflexivity.
  - exists e'. repeat split; trivial.
    intro now. unfold Hook.tick. unfold tickerOf in T.
    destruct (pixi_app (pixiRef e')) as [a|]; [|reflexivity].
    simpl in T. injection T as ->. reflexivity.
Qed.

(** ** A returned export *)

Lemma exportFrames_returned toBlob now total e frames e' :
  Hook.exportFrames toBlob now total e = (inr frames, e') ->
  initialized e
  /\ exists e1,
       Hook.exportLoop toBlob (configRef e) total (Hook.tripCount total) 0 []
                       (Hook.onApp (Hook.setTicker false) e)
       = (inr frames, e1)
       /\ e' = Hook.exportLeave now e1.
Proof.
  unfold Hook.exportFrames. unfold Eff.bind at 1.
  destruct (exportEnter_spec e) as [[I E]|[_ E]]; rewrite E; [|discriminate].
  unfold Eff.bind at 1.
  destruct (Hook.exportLoop toBlob (configRef e) total (Hook.tripCount total)
              0 [] (Hook.onApp (Hook.setTicker false) e)) as [[err|blobs] e1];
    [discriminate|].
  unfold Eff.bind, Eff.modify, Eff.ret. intro H. injection H as <- <-.
  split; [exact I|]. now exists e1.
Qed.

Lemma exportLeave_ticker now e :
  initialized e -> tickerOf (Hook.exportLeave now e) = Some true.
Proof.
  unfold initialized, tickerOf, Hook.exportLeave, Hook.onApp, Hook.onPixi.
  simpl. intros [Ha _].
  destruct (pixi_app (pixiRef e)); [reflexivity|congruence].
Qed.

Lemma exportLeave_initialized now e :
  initialized e -> initialized (Hook.exportLeave now e).
Proof.
  unfold initialized, Hook.exportLeave, Hook.onApp, Hook.onPixi. simpl.
  intros [Ha Hf]. destruct (pixi_app (pixiRef e)); simpl; split; congruence.
Qed.

Lemma tick_running now e :
  initialized e -> tickerOf e = Some true ->
  timeVecOf (Hook.tick now e)
  = Some (PhaseClock.timeVec
            (PhaseClock.liveT (configRef e) ((now - startTimeRef e) / 1000))).
Proof.
  unfold initialized, tickerOf, timeVecOf, Hook.tick, Hook.tickerCallback.
  intros [Ha Hf] T.
  destruct (pixi_app (pixiRef e)) as [a|]; [|congruence].
  simpl in T. injection T as ->.
  destruct (pixi_filter (pixiRef e)) as [f|] eqn:F; [|congruence].
  unfold Hook.render, Hook.onApp, Hook.onFilter, Hook.onPixi. simpl.
  now rewrite F.
Qed.


Lemma liveT_comp config (x y : Q) :
  (x == y)%Q -> (PhaseClock.liveT config x == PhaseClock.liveT config y)%Q.
Proof.
  intro H. unfold PhaseClock.liveT.
  assert (E : (JS.rem (x / loopDuration config) 1
               == JS.rem (y / loopDuration config) 1)%Q).
  { apply rem_comp. now rewrite H. }
  destruct (JS.gt (posterize config) 0); [|exact E].
  rewrite (Math_floor_comp
             (JS.rem (x / loopDuration config) 1
              * (posterize config * loopDuration config))
             (JS.rem (y / loopDuration config) 1
              * (posterize config * loopDuration config)));
    [reflexivity|now rewrite E].
Qed.

Lemma exportStep_timeVec config total i e :
  initialized e ->
  timeVecOf (Hook.exportStep config total i e)
  = Some (PhaseClock.timeVec (PhaseClock.exportT config i total)).
Proof.
  unfold initialized, timeVecOf, Hook.exportStep, Hook.render, Hook.onApp,
    Hook.onFilter, Hook.onPixi.
  simpl. intros [_ Hf].
  destruct (pixi_filter (pixiRef e)); [reflexivity|congruence].
Qed.

(** On the engine itself: a display refresh [i / fps] seconds after the time
    origin writes the same [uTimeVec] as the export loop does for frame [i]
    of [N], when [N = loopDuration * fps]. *)
Lemma tick_matches_export_step (e : Engine) (i : nat) (N : Z) :
  initialized e -> tickerOf e = Some true ->
  (inject_Z N == loopDuration (configRef e) * fps (configRef e))%Q ->
  (Z.of_nat i < N)%Z ->
  timeVecOf
    (Hook.tick (startTimeRef e
                + 1000 * (inject_Z (Z.of_nat i) / fps (configRef e))) e)
  = timeVecOf (Hook.exportStep (configRef e) (inject_Z N) i e).
Proof.
  intros I T Hc Hi.
  rewrite (tick_running _ e I T), (exportStep_timeVec _ _ _ e I).
  f_equal. apply timeVec_comp.
  rewrite <- (live_export_phase (configRef e) i N Hc Hi).
  apply liveT_comp.
  destruct (rate_and_duration_nonzero (configRef e) i N Hc Hi) as [Hf _].
  field. exact Hf.
Qed.




(** ** After [destroy] *)

Lemma destroy_clears_app e : pixi_app (pixiRef (snd (Hook.destroy e))) = None.
Proof.
  unfold Hook.destroy, Eff.bind, Eff.modify, Eff.get, Eff.ret. simpl.
  destruct (pixi_app (pixiRef e)) eqn:A; simpl; [reflexivity|exact A].
Qed.

Lemma destroy_returns e : fst (Hook.destroy e) = inr tt.
Proof.
  unfold Hook.destroy, Eff.bind, Eff.modify, Eff.get, Eff.ret. simpl.
  now destruct (pixi_app (pixiRef e)).
Qed.

Lemma destroy_sets_flag e : destroyedRef (snd (Hook.destroy e)) = true.
Proof.
  unfold Hook.destroy, Eff.bind, Eff.modify, Eff.get, Eff.ret. simpl.
  now destruct (pixi_app (pixiRef e)).
Qed.

Lemma loadImage_without_app source e :
  pixi_app (pixiRef e) = None -> Hook.loadImage source e = (inr tt, e).
Proof.
  intro A. unfold Hook.loadImage, Eff.bind, Eff.get. simpl. now rewrite A.
Qed.

Lemma updateConfig_without_app partial e :
  pixi_app (pixiRef e) = None ->
  fst (Hook.updateConfig partial e) = inr tt
  /\ pixiRef (snd (Hook.updateConfig partial e))
     = Hook.setFilter
         (option_map (Hook.pushUniforms (Hook.merge (configRef e) partial))
                     (pixi_filter (pixiRef e)))
         (pixiRef e)
  /\ configRef (snd (Hook.updateConfig partial e))
     = Hook.merge (configRef e) partial
  /\ startTimeRef (snd (Hook.updateConfig partial e)) = startTimeRef e
  /\ destroyedRef (snd (Hook.updateConfig partial e)) = destroyedRef e.
Proof.
  intro A.
  unfold Hook.updateConfig, Eff.bind, Eff.modify, Eff.get, Eff.ret,
    Hook.onApp, Hook.onFilter, Hook.onPixi, Hook.setApp, Hook.setFilter.
  simpl. rewrite A. simpl.
  repeat split; trivial.
Qed.

Lemma exportFrames_without_app toBlob now total e :
  pixi_app (pixiRef e) = None ->
  Hook.exportFrames toBlob now total e
  = (inl (JS.mkError "Engine not initialized"), e).
Proof.
  intro A. unfold Hook.exportFrames. unfold Eff.bind at 1.
  destruct (exportEnter_spec e) as [[[I _] _]|[_ E]]; [congruence|].
  now rewrite E.
Qed.

(** Counterexample to C9: on a destroyed engine [loadImage] and
    [updateConfig] return normally, and the rejection of [exportFrames] is
    the "Engine not initialized" error of an engine that was never set up. *)
Lemma calls_on_destroyed_engine_are_not_rejected :
  let e := snd (Hook.destroy Sample.ready) in
  destroyedRef e = true
  /\ Hook.loadImage (ImageElement 100 100) e = (inr tt, e)
  /\ fst (Hook.updateConfig
            (mkPartial (Some 8) None None None None None None None None None
                       None None) e) = inr tt
  /\ fst (Hook.exportFrames Sample.toBlobOk 0 72 e)
     = inl (JS.mkError "Engine not initialized").
Proof. repeat split; reflexivity. Qed.

(** C9, amended.  After [destroy], [exportFrames] rejects with the error
    "Engine not initialized" and changes nothing; [loadImage] returns without
    any effect; [updateConfig] returns after storing the merged
    configuration, touching neither the application nor the time origin.
    Neither of the latter two throws. *)
Theorem calls_after_destroy
  (e : Engine) (source : Source) (partial : PartialConfig)
  (toBlob : nat -> option Blob) (now total : Q) :
  let e' := snd (Hook.destroy e) in
  fst (Hook.destroy e) = inr tt
  /\ destroyedRef e' = true
  /\ Hook.exportFrames toBlob now total e'
     = (inl (JS.mkError "Engine not initialized"), e')
  /\ Hook.loadImage source e' = (inr tt, e')
  /\ fst (Hook.updateConfig partial e') = inr tt
  /\ configRef (snd (Hook.updateConfig partial e'))
     = Hook.merge (configRef e') partial
  /\ pixi_app (pixiRef (snd (Hook.updateConfig partial e'))) = None
  /\ startTimeRef (snd (Hook.updateConfig partial e')) = startTimeRef e'
  /\ destroyedRef (snd (Hook.updateConfig partial e')) = true.
Proof.
  intro e'. pose proof (destroy_clears_app e) as A. fold e' in A.
  destruct (updateConfig_without_app partial e' A) as (U1 & U2 & U3 & U4 & U5).
  split; [apply destroy_returns|].
  split; [apply destroy_sets_flag|].
  split; [now apply exportFrames_without_app|].
  split; [now apply loadImage_without_app|].
  split; [exact U1|].
  split; [exact U3|].
  split; [rewrite U2; exact A|].
  split; [exact U4|].
  rewrite U5. apply destroy_sets_flag.
Qed.

(** ** [exportFrames] between suspension points *)

Lemma drive_loop toBlob now config total n :
  forall i blobs e,
    (i + n = Hook.tripCount total)%nat ->
    asResult (Hook.drive toBlob now n (Hook.advance now config total i blobs e))
    = Some (match Hook.exportLoop toBlob config total n i blobs e with
            | (inl err, e1) => (inl err, e1)
            | (inr frames, e1) => (inr frames, Hook.exportLeave now e1)
            end).
Proof.
  induction n as [|n IH]; intros i blobs e Hn; unfold Hook.advance.
  - replace (i <? Hook.tripCount total)%nat with false
      by (symmetry; apply Nat.ltb_ge; lia).
    reflexivity.
  - replace (i <? Hook.tripCount total)%nat with true
      by (symmetry; apply Nat.ltb_lt; lia).
    rewrite exportLoop_S. simpl. unfold Hook.settle. simpl.
    destruct (Hook.toBlobPromise (toBlob i)) as [err|blob].
    + now destruct n.
    + apply IH. lia.
Qed.

(** Driving one call from suspension to suspension, with nothing in between,
    is the sequential [exportFrames]. *)
Lemma drive_exportFrames toBlob now total e :
  asResult (Hook.drive toBlob now (Hook.tripCount total) (Hook.call now total e))
  = Some (Hook.exportFrames toBlob now total e).
Proof.
  unfold Hook.call, Hook.exportFrames. unfold Eff.bind at 1.
  destruct (Hook.exportEnter e) as [[err|config] e0].
  - now destruct (Hook.tripCount total).
  - rewrite drive_loop by reflexivity.
    unfold Eff.bind at 1.
    destruct (Hook.exportLoop toBlob config total (Hook.tripCount total) 0 [] e0)
      as [[err|frames] e1]; reflexivity.
Qed.

Lemma advance_initialized now config total i blobs e :
  initialized e -> initialized (snd (Hook.advance now config total i blobs e)).
Proof.
  intro I. unfold Hook.advance.
  destruct (i <? Hook.tripCount total)%nat; simpl.
  - now apply exportStep_initialized.
  - now apply exportLeave_initialized.
Qed.

Lemma call_initialized now total e :
  initialized e ->
  Hook.call now total e
  = Hook.advance now (configRef e) total 0 []
                 (Hook.onApp (Hook.setTicker false) e).
Proof.
  intro I. unfold Hook.call.
  destruct (exportEnter_spec e) as [[_ E]|[N _]]; [|contradiction].
  now rewrite E.
Qed.

Lemma call_suspended_initialized now total e p e1 :
  Hook.call now total e = (Hook.Suspended p, e1) -> initialized e1.
Proof.
  intro H. destruct (exportEnter_spec e) as [[I E]|[_ E]].
  - rewrite (call_initialized now total e I) in H.
    replace e1 with (snd (Hook.advance now (configRef e) total 0 []
                            (Hook.onApp (Hook.setTicker false) e)))
      by now rewrite H.
    apply advance_initialized. now apply stop_ticker_initialized.
  - unfold Hook.call in H. rewrite E in H. discriminate.
Qed.

Lemma inFlight_initialized p e : InFlight p e -> initialized e.
Proof.
  induction 1 as [now total e e1 p H | now b e e1 p p1 _ IH H].
  - now apply (call_suspended_initialized now total e p e1).
  - unfold Hook.settle in H.
    destruct (Hook.toBlobPromise b) as [err|blob]; [discriminate|].
    replace e1 with (snd (Hook.advance now (Hook.pd_config p) (Hook.pd_total p)
                            (S (Hook.pd_i p)) (Hook.pd_blobs p ++ [blob]) e)).
    + now apply advance_initialized.
    + now rewrite H.
Qed.

Lemma advance_not_rejected now config total i blobs e :
  (exists p, fst (Hook.advance now config total i blobs e) = Hook.Suspended p)
  \/ fst (Hook.advance now config total i blobs e) = Hook.Resolved blobs.
Proof.
  unfold Hook.advance. destruct (i <? Hook.tripCount total)%nat; simpl; eauto.
Qed.

(** Counterexample to C4: with a first call suspended at its first [await],
    a second call is not rejected; it stops the ticker again, renders its own
    frame 0 and suspends in turn.  When the first call then finishes, it
    restarts the ticker although the second is still in flight. *)
Lemma second_export_call_is_not_rejected :
  exists p1 e1 p2 e2 e3,
    Hook.call 0 1 Sample.ready = (Hook.Suspended p1, e1)
    /\ Hook.call 10 1 e1 = (Hook.Suspended p2, e2)
    /\ Hook.settle 20 p1 (Sample.toBlobOk 0) e2
       = (Hook.Resolved [Sample.pngBlob Byte.x2a], e3)
    /\ tickerOf e3 = Some true.
Proof. do 5 eexists. repeat split; reflexivity. Qed.

(** C4, amended.  [exportFrames] has no busy guard: while a call is in
    flight, a further call on the same engine is never rejected; it stops the
    ticker and either suspends at its own first [await] or, for a frame count
    of zero, returns at once.  Overlapping exports are excluded one level up:
    while [exporting] is set, both buttons of the export panel are disabled
    and a click starts no handler. *)
Theorem export_while_in_flight
  (p : Hook.Pending) (e : Engine) (now total : Q) :
  InFlight p e ->
  ((exists p2 e2,
      Hook.call now total e = (Hook.Suspended p2, e2)
      /\ tickerOf e2 = Some false)
   \/ (exists e2, Hook.call now total e = (Hook.Resolved [], e2)))
  /\ (forall hasImage type running,
        ExportPanel.click hasImage type (Some running) = None).
Proof.
  intro F. pose proof (inFlight_initialized p e F) as I.
  split.
  - rewrite (call_initialized now total e I). unfold Hook.advance.
    destruct (0 <? Hook.tripCount total)%nat.
    + left. do 2 eexists. split; [reflexivity|].
      rewrite exportStep_ticker. now apply stop_ticker.
    + right. eexists. reflexivity.
  - intros hasImage type running. unfold ExportPanel.click, ExportPanel.disabled.
    now rewrite orb_true_r.
Qed.

Lemma export_while_in_flight_witness :
  exists p e,
    InFlight p e
    /\ ((exists p2 e2,
           Hook.call 10 72 e = (Hook.Suspended p2, e2)
           /\ tickerOf e2 = Some false)
        \/ (exists e2, Hook.call 10 72 e = (Hook.Resolved [], e2))).
Proof.
  eexists. eexists.
  assert (F : InFlight
                {| Hook.pd_config := configRef Sample.ready;
                   Hook.pd_total := 72; Hook.pd_i := 0; Hook.pd_blobs := [] |}
                (snd (Hook.call 0 72 Sample.ready))).
  { apply (InFlight_called 0 72 Sample.ready). reflexivity. }
  split.
  - exact F.
  - apply (export_while_in_flight _ _ 10 72 F).
Defined.

(** ** The WebM sink *)

Lemma pushFrames_rejected browser frames err :
  Webm.pushFrames browser frames = inl err ->
  exists frame, In frame frames /\ Webm.createImageBitmap browser frame = inl err.
Proof.
  induction frames as [|f rest IH]; simpl; [discriminate|].
  destruct (Webm.createImageBitmap browser f) as [err'|bitmap] eqn:E.
  - intro H. injection H as <-. exists f. auto.
  - destruct (Webm.pushFrames browser rest) as [err'|pushed]; [|discriminate].
    intro H. injection H as <-. destruct (IH eq_refl) as (fr & Hin & Hfr).
    exists fr. auto.
Qed.

(** Counterexample to C8: in a browser that records plain WebM but not VP9
    the sink resolves with a "video/webm" blob; the caller is handed nothing
    else, and the page downloads it under the usual name. *)
Lemma webm_fallback_is_not_reported :
  Webm.isTypeSupported Sample.browserWithoutVp9 "video/webm;codecs=vp9" = false
  /\ Webm.isTypeSupported Sample.browserWithoutVp9 "video/webm" = true
  /\ Webm.exportWebm Sample.browserWithoutVp9 [Sample.pngBlob Byte.x2a]
       100 100 24
     = inr {| blobParts := [Byte.x2a]; blobType := "video/webm" |}
  /\ fst (Page.handleExportWebm Sample.browserWithoutVp9 DEFAULT_CONFIG
            (Some (100, 100)%Z) Sample.toBlobOk 0 Sample.ready)
     = inr (Some ({| blobParts := List.concat (repeat [Byte.x2a] 72);
                     blobType := "video/webm" |},
                  "afterink-export.webm"%string)).
Proof. repeat split; reflexivity. Qed.

(** Where no WebM type is supported the constructor throws before a frame
    is decoded. *)
Example webm_unsupported_rejects :
  Webm.exportWebm Sample.browserWithoutWebm [Sample.pngBlob Byte.x2a]
    100 100 24
  = inl Webm.NotSupportedError.
Proof. reflexivity. Qed.

(** C8, amended.  When "video/webm;codecs=vp9" is not supported the sink
    creates its recorder with the generic "video/webm" type instead.  If
    that type is not supported either, the constructor throws and the call
    rejects with [NotSupportedError] before any frame is decoded.  Otherwise
    the call goes on as it does with VP9: it rejects only with the error
    thrown by [start], the error of a frame that could not be decoded, or
    the error of the recorder, and else resolves with a blob of type
    "video/webm" holding the recorded chunks.  That type is the only trace
    of the fallback: a resolved call carries no error, warning or flag. *)
Theorem webm_fallback
  (browser : Webm.Browser) (frames : list Blob) (width height : Z) (fps : Q) :
  Webm.isTypeSupported browser "video/webm;codecs=vp9" = false ->
  Webm.mimeType browser = "video/webm"%string
  /\ (Webm.isTypeSupported browser "video/webm" = false ->
      Webm.exportWebm browser frames width height fps
      = inl Webm.NotSupportedError)
  /\ (forall blob,
        Webm.exportWebm browser frames width height fps = inr blob ->
        blobType blob = "video/webm"%string
        /\ Webm.isTypeSupported browser "video/webm" = true)
  /\ (forall err,
        Webm.exportWebm browser frames width height fps = inl err ->
        (Webm.isTypeSupported browser "video/webm" = false
         /\ err = Webm.NotSupportedError)
        \/ Webm.start browser "video/webm" 8000000 = inl err
        \/ (exists frame,
               In frame frames
               /\ Webm.createImageBitmap browser frame = inl err)
        \/ (exists pushed,
               Webm.pushFrames browser frames = inr pushed
               /\ Webm.record browser "video/webm" 8000000 pushed = inl err))
  /\ (forall started pushed data,
        Webm.isTypeSupported browser "video/webm" = true ->
        Webm.start browser "video/webm" 8000000 = inr started ->
        Webm.pushFrames browser frames = inr pushed ->
        Webm.record browser "video/webm" 8000000 pushed = inr data ->
        Webm.exportWebm browser frames width height fps
        = inr {| blobParts :=
                   List.concat (map blobParts (filter Webm.keepChunk data));
                 blobType := "video/webm" |}).
Proof.
  intro Hvp9.
  assert (M : Webm.mimeType browser = "video/webm"%string).
  { unfold Webm.mimeType. now rewrite Hvp9. }
  unfold Webm.exportWebm, Webm.newMediaRecorder. rewrite M.
  split; [reflexivity|].
  destruct (Webm.isTypeSupported browser "video/webm") eqn:S.
  2:{ split; [reflexivity|]. split; [discriminate|]. split.
      - intros err H. injection H as <-. left. split; reflexivity.
      - discriminate. }
  split; [discriminate|].
  destruct (Webm.start browser "video/webm" 8000000) as [err0|started0] eqn:St.
  { split; [discriminate|]. split.
    - intros err H. injection H as <-. right. left. reflexivity.
    - discriminate. }
  destruct (Webm.pushFrames browser frames) as [err0|pushed] eqn:P.
  { split; [discriminate|]. split.
    - intros err H. injection H as <-. right. right. left.
      now apply pushFrames_rejected.
    - discriminate. }
  destruct (Webm.record browser "video/webm" 8000000 pushed)
    as [err0|data] eqn:Rc.
  - split; [discriminate|]. split.
    + intros err H. injection H as <-. right. right. right.
      exists pushed. auto.
    + intros started pushed' data' _ _ H. injection H as <-.
      rewrite Rc. discriminate.
  - split; [intros blob H; injection H as <-; split; reflexivity|].
    split; [discriminate|].
    intros started pushed' data' _ _ H H'. injection H as <-.
    rewrite Rc in H'. injection H' as <-. reflexivity.
Qed.

Lemma webm_fallback_witness :
  Webm.mimeType Sample.browserWithoutVp9 = "video/webm"%string
  /\ Webm.exportWebm Sample.browserWithoutVp9 [Sample.pngBlob Byte.x2a]
       100 100 24
     = inr {| blobParts := [Byte.x2a]; blobType := "video/webm" |}.
Proof.
  destruct (webm_fallback Sample.browserWithoutVp9 [Sample.pngBlob Byte.x2a]
              100 100 24 eq_refl) as (M & _ & _ & _ & R).
  split; [exact M|].
  apply (R tt [Sample.pngBlob Byte.x2a] [Sample.pngBlob Byte.x2a]);
    reflexivity.
Defined.

(** ** Frame names *)

Lemma length_append (s t : string) :
  String.length (s ++ t) = (String.length s + String.length t)%nat.
Proof. induction s as [|a s IH]; simpl; [reflexivity|now rewrite IH]. Qed.

Lemma append_cancel_r (t s1 s2 : string) :
  (s1 ++ t)%string = (s2 ++ t)%string -> s1 = s2.
Proof.
  revert s2. induction s1 as [|a s1 IH]; intros [|b s2] H; simpl in H.
  - reflexivity.
  - apply (f_equal String.length) in H. simpl in H.
    rewrite length_append in H. lia.
  - apply (f_equal String.length) in H. simpl in H.
    rewrite length_append in H. lia.
  - injection H as -> H. f_equal. now apply IH.
Qed.

Lemma length_string_of_uint (d : Decimal.uint) :
  String.length (NilEmpty.string_of_uint d) = Decimal.nb_digits d.
Proof. induction d; simpl; congruence. Qed.

(** Padding with [k] zeros prints the numeral with [k] leading zeros. *)
Lemma zeros_append (k : nat) (d : Decimal.uint) :
  (String.concat EmptyString (repeat "0"%string k)
   ++ NilEmpty.string_of_uint d)%string
  = NilEmpty.string_of_uint (Nat.iter k Decimal.D0 d).
Proof.
  induction k as [|k IH]; [reflexivity|].
  change (Nat.iter (S k) Decimal.D0 d) with (Decimal.D0 (Nat.iter k Decimal.D0 d)).
  simpl NilEmpty.string_of_uint. rewrite <- IH.
  destruct k; reflexivity.
Qed.

Lemma padStart0_numeral (i : nat) :
  JSString.padStart0 4 (JSString.ofNat i)
  = NilEmpty.string_of_uint
      (Nat.iter (4 - String.length (JSString.ofNat i)) Decimal.D0
                (Nat.to_uint i)).
Proof. unfold JSString.padStart0. apply zeros_append. Qed.

Lemma of_uint_leading_zeros (k : nat) (d : Decimal.uint) :
  Nat.of_uint (Nat.iter k Decimal.D0 d) = Nat.of_uint d.
Proof. induction k as [|k IH]; [reflexivity|]. simpl. exact IH. Qed.

(** The padded index, read back as a decimal numeral, is the index. *)
Lemma padStart0_reads_back (i : nat) :
  exists d,
    NilEmpty.uint_of_string (JSString.padStart0 4 (JSString.ofNat i)) = Some d
    /\ Nat.of_uint d = i.
Proof.
  rewrite padStart0_numeral. eexists. split; [apply NilEmpty.usu|].
  rewrite of_uint_leading_zeros. apply DecimalNat.Unsigned.of_to.
Qed.

Lemma frameName_inj (i j : nat) :
  PngSequence.frameName i = PngSequence.frameName j -> i = j.
Proof.
  unfold PngSequence.frameName. intro H. simpl in H.
  injection H as H. apply append_cancel_r in H.
  destruct (padStart0_reads_back i) as (d & Hd & Hi).
  destruct (padStart0_reads_back j) as (d' & Hd' & Hj).
  rewrite H in Hd. congruence.
Qed.

Lemma shortUpTo_spec (n : nat) :
  forall d k,
    shortUpTo n d = true -> (k < n)%nat ->
    (Decimal.nb_digits (Nat.iter k Decimal.Little.succ d) <= 4)%nat.
Proof.
  induction n as [|n IH]; intros d k H Hk; [lia|].
  simpl in H. apply andb_true_iff in H as [H0 H1].
  destruct k as [|k].
  - simpl. now apply Nat.leb_le.
  - replace (Nat.iter (S k) Decimal.Little.succ d)
      with (Nat.iter k Decimal.Little.succ (Decimal.Little.succ d)).
    + apply IH; [exact H1|lia].
    + symmetry. apply Nat.iter_succ_r.
Qed.

Lemma to_lu_iter (i : nat) :
  DecimalNat.Unsigned.to_lu i = Nat.iter i Decimal.Little.succ Decimal.zero.
Proof. induction i as [|i IH]; [reflexivity|]. simpl. now rewrite IH. Qed.

Lemma ofNat_short (i : nat) :
  (i < 10000)%nat -> (String.length (JSString.ofNat i) <= 4)%nat.
Proof.
  intro H. unfold JSString.ofNat.
  rewrite length_string_of_uint, DecimalNat.Unsigned.to_uint_alt,
    DecimalFacts.nb_digits_rev, to_lu_iter.
  apply (shortUpTo_spec 10000); [vm_compute; reflexivity|exact H].
Qed.

Lemma padStart0_width (i : nat) :
  (i < 10000)%nat -> String.length (JSString.padStart0 4 (JSString.ofNat i)) = 4%nat.
Proof.
  intro H. rewrite padStart0_numeral, length_string_of_uint,
    DecimalFacts.nb_digits_iter_D0.
  pose proof (ofNat_short i H) as L. unfold JSString.ofNat in *.
  rewrite length_string_of_uint in *. lia.
Qed.

(** ** The PNG archive *)

Lemma assign_fresh key value (files : PngSequence.Zippable) :
  ~ In key (map fst files) ->
  PngSequence.assign key value files = files ++ [(key, value)].
Proof.
  induction files as [|[k v] rest IH]; simpl; intro H; [reflexivity|].
  destruct (String.eqb k key) eqn:E.
  - apply String.eqb_eq in E. tauto.
  - f_equal. apply IH. tauto.
Qed.

Lemma addFrames_entries (frames : list Blob) :
  forall i files,
    (forall key, In key (map fst files) ->
                 exists j, (j < i)%nat /\ key = PngSequence.frameName j) ->
    PngSequence.addFrames frames i files = files ++ entries i frames.
Proof.
  induction frames as [|f rest IH]; intros i files Hfiles.
  - simpl. unfold entries. simpl. now rewrite app_nil_r.
  - simpl. rewrite assign_fresh.
    + rewrite IH.
      * rewrite <- app_assoc. reflexivity.
      * intros key Hin. rewrite map_app, in_app_iff in Hin.
        destruct Hin as [Hin|[<-|[]]].
        -- destruct (Hfiles key Hin) as (j & Hj & ->). exists j. split; [lia|easy].
        -- exists i. split; [lia|reflexivity].
    + intro Hin. destruct (Hfiles _ Hin) as (j & Hj & E).
      apply frameName_inj in E. lia.
Qed.

Lemma zipFiles_entries (frames : list Blob) :
  PngSequence.zipFiles frames = entries 0 frames.
Proof.
  unfold PngSequence.zipFiles. rewrite addFrames_entries; [reflexivity|].
  intros key [].
Qed.

Lemma entries_length i frames : List.length (entries i frames) = List.length frames.
Proof.
  unfold entries. rewrite length_map, length_combine, length_seq. lia.
Qed.

Lemma tripCount_round (x : Q) :
  Z.of_nat (Hook.tripCount (JS.Math_round x)) = Z.max 0 (Qfloor (x + (1 # 2))).
Proof.
  unfold Hook.tripCount, JS.Math_round. rewrite Qceiling_Z. lia.
Qed.

(** The trip count is the number of indices the loop test lets through. *)
Lemma tripCount_spec (total : Q) (i : nat) :
  (i < Hook.tripCount total)%nat <-> (inject_Z (Z.of_nat i) < total)%Q.
Proof.
  unfold Hook.tripCount. split; intro H.
  - assert (H' : (Z.of_nat i <= Qceiling total - 1)%Z) by lia.
    apply Qle_lt_trans with (inject_Z (Qceiling total - 1)).
    + now rewrite <- Zle_Qle.
    + apply Qceiling_lt.
  - assert (H' : (inject_Z (Z.of_nat i) < inject_Z (Qceiling total))%Q).
    { apply Qlt_le_trans with total; [exact H|apply Qle_ceiling]. }
    rewrite <- Zlt_Qlt in H'. lia.
Qed.

(** Within the documented ranges (a loop of at most 6 s, at most 30 frames
    per second) an export has at most 180 frames. *)
Lemma documented_ranges_frame_count (config : DisplacementConfig) :
  (0 <= loopDuration config)%Q -> (loopDuration config <= 6)%Q ->
  (0 <= fps config)%Q -> (fps config <= 30)%Q ->
  (Qfloor (loopDuration config * fps config + (1 # 2)) <= 180)%Z.
Proof.
  intros L0 L6 F0 F30.
  assert (P : (loopDuration config * fps config <= 6 * 30)%Q).
  { apply Qle_trans with (6 * fps config)%Q.
    - apply Qmult_le_compat_r; assumption.
    - rewrite (Qmult_comm 6), (Qmult_comm 6).
      apply Qmult_le_compat_r; [assumption|]. discriminate. }
  assert (B : (Qfloor (loopDuration config * fps config + (1 # 2))
               <= Qfloor (6 * 30 + (1 # 2)))%Z).
  { apply Qfloor_resp_le. apply Qplus_le_l. exact P. }
  exact B.
Qed.

Example frameName_first_frames :
  map PngSequence.frameName [0; 1; 71; 9999]%nat
  = ["frame_0000.png"; "frame_0001.png"; "frame_0071.png"; "frame_9999.png"]%string.
Proof. reflexivity. Qed.

(** C7.  A PNG-sequence export that completes has rendered
    [round(loopDuration * fps)] frames, frame [i] being the [i]-th extraction.
    The table handed to [zipSync] has one entry per frame, in frame order; the
    entry of frame [i] holds that frame's bytes under the name "frame_",
    the decimal index [i] left-padded with zeros, ".png" -- four digits for
    every index below 10000, starting with "frame_0000.png" -- and the
    archive is built at level 0 (store). *)
Theorem png_sequence_export
  (zipSync : PngSequence.Zippable -> PngSequence.ZipOptions -> list Byte.byte)
  (config : DisplacementConfig) (toBlob : nat -> option Blob) (now : Q)
  (e e' : Engine) (download : Page.Download) :
  Page.handleExportPng zipSync config toBlob now e = (inr download, e') ->
  exists frames,
    Z.of_nat (List.length frames)
    = Z.max 0 (Qfloor (loopDuration config * fps config + (1 # 2)))
    /\ (forall i, (i < List.length frames)%nat ->
                  toBlob i = Some (nth i frames (mkBlob [] EmptyString)))
    /\ download
       = ({| blobParts := zipSync (PngSequence.zipFiles frames)
                                  {| PngSequence.level := 0 |};
             blobType := "application/zip" |},
          "afterink-frames.zip"%string)
    /\ PngSequence.zipFiles frames = entries 0 frames
    /\ List.length (PngSequence.zipFiles frames) = List.length frames
    /\ (forall i, (i < 10000)%nat ->
                  String.length (JSString.padStart0 4 (JSString.ofNat i)) = 4%nat)
    /\ ((0 <= loopDuration config)%Q -> (loopDuration config <= 6)%Q ->
        (0 <= fps config)%Q -> (fps config <= 30)%Q ->
        (List.length frames <= 180)%nat)
    /\ (forall i, exists d,
           NilEmpty.uint_of_string (JSString.padStart0 4 (JSString.ofNat i))
           = Some d /\ Nat.of_uint d = i)
    /\ PngSequence.frameName 0 = "frame_0000.png"%string.
Proof.
  unfold Page.handleExportPng. unfold Eff.bind at 1.
  destruct (Hook.exportFrames toBlob now
              (JS.Math_round (loopDuration config * fps config)) e)
    as [[err|frames] e1] eqn:X; [discriminate|].
  unfold Eff.ret. intro H. injection H as <- <-.
  destruct (exportFrames_returned _ _ _ _ _ _ X) as (_ & e2 & L & _).
  apply (f_equal fst) in L. simpl in L.
  destruct (exportLoop_resolves _ _ _ _ _ _ _ _ L) as (new & E & Hlen & Hnth).
  simpl in E. subst new.
  exists frames.
  split; [rewrite Hlen; apply tripCount_round|].
  split; [intros i Hi; apply (Hnth i); lia|].
  split; [reflexivity|].
  split; [apply zipFiles_entries|].
  split; [rewrite zipFiles_entries; apply entries_length|].
  split; [exact padStart0_width|].
  split.
  { intros L0 L6 F0 F30.
    pose proof (documented_ranges_frame_count config L0 L6 F0 F30) as B.
    pose proof (tripCount_round (loopDuration config * fps config)) as T.
    rewrite Hlen. lia. }
  split; [exact padStart0_reads_back|reflexivity].
Qed.

Lemma png_sequence_export_witness :
  exists frames,
    Z.of_nat (List.length frames) = 72%Z
    /\ PngSequence.zipFiles frames = entries 0 frames
    /\ (List.length frames <= 180)%nat.
Proof.
  destruct (png_sequence_export Sample.zipStore DEFAULT_CONFIG Sample.toBlobOk
              5000 Sample.ready
              (snd (Page.handleExportPng Sample.zipStore DEFAULT_CONFIG
                      Sample.toBlobOk 5000 Sample.ready))
              ({| blobParts := repeat Byte.x2a 72;
                  blobType := "application/zip" |},
               "afterink-frames.zip"%string)
              eq_refl)
    as (frames & Hn & _ & _ & Hfiles & _ & _ & Hdoc & _).
  exists frames. split; [exact Hn|]. split; [exact Hfiles|].
  apply Hdoc; discriminate.
Defined.

(** ** The shader: FBM *)

Lemma Int_part_IZR (z : Z) : Int_part (IZR z) = z.
Proof. symmetry. apply Int_part_spec. lra. Qed.

Lemma int_IZR (z : Z) : Shader.int (IZR z) = z.
Proof.
  unfold Shader.int. destruct (Rle_dec 0 (IZR z)).
  - apply Int_part_IZR.
  - rewrite <- opp_IZR, Int_part_IZR. lia.
Qed.

Lemma fbmLoop_sum (p : Shader.vec2) (octaves : Z) (fuel : nat) :
  forall (k : nat) (value : R),
    Shader.fbmLoop fuel (Z.of_nat k) octaves p value
                   (FbmSpec.amplitude k) (FbmSpec.frequency k)
    = (value
       + fold_right Rplus 0
           (map (FbmSpec.term Shader.snoise p)
                (seq k (Nat.min fuel (Z.to_nat (octaves - Z.of_nat k))))))%R.
Proof.
  induction fuel as [|fuel IH]; intros k value.
  - simpl. ring.
  - cbn [Shader.fbmLoop].
    destruct (Z.of_nat k >=? octaves)%Z eqn:E.
    + replace (Z.to_nat (octaves - Z.of_nat k)) with 0%nat by lia.
      rewrite Nat.min_0_r. cbn [seq map fold_right]. ring.
    + replace (Z.to_nat (octaves - Z.of_nat k))
        with (S (Z.to_nat (octaves - Z.of_nat (S k)))) by lia.
      rewrite <- Nat.succ_min_distr.
      replace (Z.of_nat k + 1)%Z with (Z.of_nat (S k)) by lia.
      replace (FbmSpec.amplitude k * (1 / 2))%R with (FbmSpec.amplitude (S k))
        by (simpl; field).
      replace (FbmSpec.frequency k * 2)%R with (FbmSpec.frequency (S k))
        by (simpl; ring).
      rewrite IH. cbn [seq map fold_right].
      unfold FbmSpec.term at 2. ring.
Qed.

(** C5.  [fbm] is the sum, over the octaves [i] from 0 to
    [min(octaves, 8) - 1], of [amplitude_i * snoise(p * frequency_i)], the
    amplitude starting at 0.5 and halving, the frequency starting at 1 and
    doubling; a count above 8 gives the sum for 8, a count below is used as
    it is, and with [uOctaves = 0] the result is 0. *)
Theorem fbm_is_octave_sum (uOctaves : R) (octaves : Z) (p : Shader.vec2) :
  Shader.fbm uOctaves p = FbmSpec.fbm Shader.snoise p (Shader.int uOctaves)
  /\ Shader.fbm (IZR octaves) p = FbmSpec.fbm Shader.snoise p octaves
  /\ FbmSpec.octaveCount octaves = Z.to_nat (Z.min octaves 8)
  /\ Shader.fbm (IZR (Z.max octaves 8)) p = Shader.fbm 8 p
  /\ Shader.fbm 0 p = 0%R
  /\ (FbmSpec.amplitude 0 = 1 / 2
      /\ forall i, FbmSpec.amplitude (S i) = FbmSpec.amplitude i / 2)%R
  /\ (FbmSpec.frequency 0 = 1
      /\ forall i, FbmSpec.frequency (S i) = 2 * FbmSpec.frequency i)%R.
Proof.
  assert (G : forall x, Shader.fbm x p
                        = FbmSpec.fbm Shader.snoise p (Shader.int x)).
  { intro x. unfold Shader.fbm, FbmSpec.fbm, FbmSpec.octaveCount.
    change (Shader.fbmLoop 8 0 (Shader.int x) p 0 (1 / 2) 1)
      with (Shader.fbmLoop 8 (Z.of_nat 0) (Shader.int x) p 0
              (FbmSpec.amplitude 0) (FbmSpec.frequency 0)).
    rewrite (fbmLoop_sum p (Shader.int x) 8 0 0).
    replace (Nat.min 8 (Z.to_nat (Shader.int x - Z.of_nat 0)))
      with (Z.to_nat (Z.min (Shader.int x) 8)) by lia.
    ring. }
  split; [apply G|].
  split; [rewrite G, int_IZR; reflexivity|].
  split; [reflexivity|].
  split.
  { rewrite !G, !int_IZR. unfold FbmSpec.fbm, FbmSpec.octaveCount.
    replace (Z.min (Z.max octaves 8) 8) with (Z.min 8 8) by lia. reflexivity. }
  split.
  { rewrite G, int_IZR. reflexivity. }
  split; split; reflexivity || (intro i; reflexivity).
Qed.

(** The octave count the hook uploads is the configured one: a whole
    number [k] of octaves in the configuration makes [fbm] the [k]-octave
    sum (the 8-octave sum from 8 on). *)
Lemma configured_octaves (config : DisplacementConfig) (wh : Z * Z) (k : Z)
  (p : Shader.vec2) :
  octaves config = inject_Z k ->
  Shader.fbm (Shader.uOctaves (shaderUniforms (uniforms (Hook.newFilter config wh)))) p
  = FbmSpec.fbm Shader.snoise p k.
Proof.
  intro H. cbn [shaderUniforms Shader.uOctaves Hook.newFilter uniforms uOctaves].
  rewrite H.
  replace (Q2R (inject_Z k)) with (IZR k) by (unfold Q2R; simpl; field).
  unfold Shader.fbm. rewrite int_IZR.
  change (Shader.fbmLoop 8 0 k p 0 (1 / 2) 1)
    with (Shader.fbmLoop 8 (Z.of_nat 0) k p 0
            (FbmSpec.amplitude 0) (FbmSpec.frequency 0)).
  rewrite fbmLoop_sum. unfold FbmSpec.fbm, FbmSpec.octaveCount.
  replace (Nat.min 8 (Z.to_nat (k - Z.of_nat 0)))
    with (Z.to_nat (Z.min k 8)) by lia.
  ring.
Qed.

(** ** The shader: edge mask *)

Lemma mix_strength_0 (x y : R) : Shader.mix x y 0 = x.
Proof. unfold Shader.mix. ring. Qed.

Lemma mix_strength_1 (x y : R) : Shader.mix x y 1 = y.
Proof. unfold Shader.mix. ring. Qed.

Lemma scale2_1 (v : Shader.vec2) : Shader.scale2 v 1 = v.
Proof. destruct v as [x y]. unfold Shader.scale2. simpl. f_equal; ring. Qed.

Lemma scale2_0 (v : Shader.vec2) : Shader.scale2 v 0 = (0, 0)%R.
Proof. destruct v as [x y]. unfold Shader.scale2. simpl. f_equal; ring. Qed.

Lemma add2_0 (v : Shader.vec2) : Shader.add2 v (0, 0)%R = v.
Proof. destruct v as [x y]. unfold Shader.add2. simpl. f_equal; ring. Qed.

(** Where the alpha of the four neighbours is the same, the gradient is 0
    and, for a non-negative threshold, so is the edge mask. *)
Lemma edgeMask_flat (u : Shader.Uniforms) (uSampler : Shader.vec2 -> Shader.vec4)
  (uv : Shader.vec2) (a : R) :
  (forall q, Shader.alpha (uSampler q) = a) ->
  (0 <= Shader.uEdgeThreshold u)%R ->
  Shader.edgeMask u uSampler uv = 0%R.
Proof.
  intros Hflat Hth. unfold Shader.edgeMask, Shader.gradient.
  rewrite !Hflat. unfold Shader.length2, Shader.dot2. simpl.
  replace ((a - a) * (a - a) + (a - a) * (a - a))%R with 0%R by ring.
  rewrite sqrt_0. unfold Shader.smoothstep, Shader.clamp.
  set (th := Shader.uEdgeThreshold u) in *.
  assert (N : ((0 - th) / (th + 15 / 100 - th) <= 0)%R).
  { replace (th + 15 / 100 - th)%R with (15 / 100)%R by ring.
    replace ((0 - th) / (15 / 100))%R with (- th * (100 / 15))%R by field.
    lra. }
  rewrite (Rmax_right _ 0 N). rewrite Rmin_left by lra. ring.
Qed.

(** C6.  With [uEdgeStrength = 0] the displacement is the unmasked one,
    [(noiseX, noiseY) * uAmountPx] pixels whatever the edge mask is, and the
    output is the source sampled there; with [uEdgeStrength = 1], wherever the
    edge mask is 0 the displacement is zero and the output is the source
    sampled at the undisplaced coordinate. *)
Theorem edge_strength_extremes
  (u : Shader.Uniforms) (uSampler : Shader.vec2 -> Shader.vec4)
  (uv : Shader.vec2) :
  let u0 := Shader.withEdgeStrength 0 u in
  let u1 := Shader.withEdgeStrength 1 u in
  Shader.displacement u0 uSampler uv = Shader.displacementUnmasked u uv
  /\ Shader.main u0 uSampler uv
     = uSampler (Shader.add2 uv (Shader.displacementUnmasked u uv))
  /\ (fst (Shader.uResolution u) <> 0%R ->
      snd (Shader.uResolution u) <> 0%R ->
      Shader.mul2 (Shader.displacement u0 uSampler uv) (Shader.uResolution u)
      = Shader.scale2 (Shader.noiseX u uv, Shader.noiseY u uv)
                      (Shader.uAmountPx u))
  /\ (Shader.edgeMask u1 uSampler uv = 0%R ->
      Shader.displacement u1 uSampler uv = (0, 0)%R
      /\ Shader.main u1 uSampler uv = uSampler uv).
Proof.
  intros u0 u1.
  assert (D0 : Shader.displacement u0 uSampler uv
               = Shader.displacementUnmasked u uv).
  { unfold Shader.displacement. subst u0.
    cbn [Shader.uEdgeStrength Shader.withEdgeStrength].
    rewrite mix_strength_0. apply scale2_1. }
  split; [exact D0|].
  split; [unfold Shader.main; now rewrite D0|].
  split.
  - intros Hx Hy. rewrite D0.
    unfold Shader.displacementUnmasked, Shader.pixelSize,
      Shader.mul2, Shader.scale2. cbn [fst snd].
    f_equal; field; assumption.
  - intro Hmask.
    assert (D1 : Shader.displacement u1 uSampler uv = (0, 0)%R).
    { unfold Shader.displacement. rewrite Hmask. subst u1.
      cbn [Shader.uEdgeStrength Shader.withEdgeStrength].
      rewrite mix_strength_1. apply scale2_0. }
    split; [exact D1|].
    unfold Shader.main. rewrite D1. now rewrite add2_0.
Qed.

Lemma edge_strength_extremes_witness :
  Shader.mul2
    (Shader.displacement (Shader.withEdgeStrength 0 Sample.defaultUniforms)
                         Sample.opaque (1 / 2, 1 / 2)%R)
    (Shader.uResolution Sample.defaultUniforms)
  = Shader.scale2
      (Shader.noiseX Sample.defaultUniforms (1 / 2, 1 / 2)%R,
       Shader.noiseY Sample.defaultUniforms (1 / 2, 1 / 2)%R)
      (Shader.uAmountPx Sample.defaultUniforms)
  /\ Shader.displacement (Shader.withEdgeStrength 1 Sample.defaultUniforms)
                         Sample.opaque (1 / 2, 1 / 2)%R
     = (0, 0)%R.
Proof.
  destruct (edge_strength_extremes Sample.defaultUniforms Sample.opaque
              (1 / 2, 1 / 2)%R) as (_ & _ & Hpx & Hmask).
  split.
  - apply Hpx.
    + cbn [Sample.defaultUniforms Shader.uResolution fst]. lra.
    + cbn [Sample.defaultUniforms Shader.uResolution snd]. lra.
  - apply Hmask.
    apply (edgeMask_flat _ Sample.opaque _ 1%R).
    + intro q. reflexivity.
    + cbn [Sample.defaultUniforms Shader.withEdgeStrength Shader.uEdgeThreshold].
      lra.
Defined.

(* ===================================================================== *)
(** * Part III.  Further properties of the code                           *)
(* ===================================================================== *)

(** ** The phase clock: range and order *)

From Stdlib Require Lqa.

Module Phase.

Import Lqa.

Lemma Qfloor_unique (x : Q) (z : Z) :
  (inject_Z z <= x)%Q -> (x < inject_Z (z + 1))%Q -> Qfloor x = z.
Proof.
  intros Hlo Hhi.
  pose proof (Qfloor_le x) as F1. pose proof (Qlt_floor x) as F2.
  assert (A : (inject_Z (Qfloor x) < inject_Z (z + 1))%Q)
    by (eapply Qle_lt_trans; eassumption).
  assert (B : (inject_Z z < inject_Z (Qfloor x + 1))%Q)
    by (eapply Qle_lt_trans; eassumption).
  rewrite <- Zlt_Qlt in A, B. lia.
Qed.

Lemma Qfloor_nonneg (x : Q) : (0 <= x)%Q -> (0 <= Qfloor x)%Z.
Proof.
  intro H. change 0%Z with (Qfloor 0). now apply Qfloor_resp_le.
Qed.

Lemma rem_one_fraction (y : Q) :
  (0 <= y)%Q -> (JS.rem y 1 == y - inject_Z (Qfloor y))%Q.
Proof.
  intro H. unfold JS.rem.
  assert (E : (y / 1 == y)%Q) by field.
  rewrite (trunc_comp (y / 1) y E), (trunc_floor y H). ring.
Qed.

Lemma rem_one_range (y : Q) :
  (0 <= y)%Q -> (0 <= JS.rem y 1)%Q /\ (JS.rem y 1 < 1)%Q.
Proof.
  intro H. rewrite (rem_one_fraction y H).
  pose proof (Qfloor_le y) as F1. pose proof (Qlt_floor y) as F2.
  rewrite inject_Z_plus in F2. change (inject_Z 1) with 1%Q in F2.
  split; lra.
Qed.

(** The posterize step: the largest multiple of [1 / s] not above [r]. *)
Lemma quantise_bounds (r s : Q) :
  (0 < s)%Q -> (0 <= r)%Q ->
  (0 <= JS.Math_floor (r * s) / s)%Q
  /\ (JS.Math_floor (r * s) / s <= r)%Q
  /\ (r < JS.Math_floor (r * s) / s + 1 / s)%Q.
Proof.
  intros Hs Hr. unfold JS.Math_floor.
  assert (Hrs : (0 <= r * s)%Q).
  { apply Qmult_le_0_compat; [exact Hr|now apply Qlt_le_weak]. }
  pose proof (Qfloor_nonneg _ Hrs) as K0.
  pose proof (Qfloor_le (r * s)) as F1. pose proof (Qlt_floor (r * s)) as F2.
  rewrite inject_Z_plus in F2.
  split; [|split].
  - apply Qle_shift_div_l; [exact Hs|]. rewrite Qmult_0_l.
    change 0%Q with (inject_Z 0). now rewrite <- Zle_Qle.
  - apply Qle_shift_div_r; [exact Hs|exact F1].
  - assert (E : (inject_Z (Qfloor (r * s)) / s + 1 / s
                 == (inject_Z (Qfloor (r * s)) + inject_Z 1) / s)%Q).
    { field. intro Z0. rewrite Z0 in Hs. now apply Qlt_irrefl in Hs. }
    rewrite E. apply Qlt_shift_div_l; [exact Hs|exact F2].
Qed.

Lemma steps_positive (config : DisplacementConfig) :
  (0 < loopDuration config)%Q -> JS.gt (posterize config) 0 = true ->
  (0 < posterize config * loopDuration config)%Q.
Proof.
  intros HL Hp. apply gt_true_iff in Hp.
  rewrite <- (Qmult_0_l (loopDuration config)).
  now apply Qmult_lt_compat_r.
Qed.

Lemma export_raw_range (i : nat) (total : Q) :
  (inject_Z (Z.of_nat i) < total)%Q ->
  (0 <= inject_Z (Z.of_nat i) / total)%Q /\ (inject_Z (Z.of_nat i) / total < 1)%Q.
Proof.
  intro H.
  assert (I0 : (0 <= inject_Z (Z.of_nat i))%Q).
  { change 0%Q with (inject_Z 0). rewrite <- Zle_Qle. lia. }
  assert (T0 : (0 < total)%Q) by (eapply Qle_lt_trans; eassumption).
  split.
  - apply Qle_shift_div_l; [exact T0|]. now rewrite Qmult_0_l.
  - apply Qlt_shift_div_r; [exact T0|]. now rewrite Qmult_1_l.
Qed.

(** X1.  Every phase the two clocks produce lies in [0, 1): the live phase
    for any elapsed time from 0 on, the export phase for every index the
    loop runs through. *)
Theorem phase_in_unit_interval
  (config : DisplacementConfig) (elapsed total : Q) (i : nat) :
  (0 < loopDuration config)%Q ->
  (0 <= elapsed)%Q ->
  (inject_Z (Z.of_nat i) < total)%Q ->
  ((0 <= PhaseClock.liveT config elapsed)%Q
   /\ (PhaseClock.liveT config elapsed < 1)%Q)
  /\ ((0 <= PhaseClock.exportT config i total)%Q
      /\ (PhaseClock.exportT config i total < 1)%Q).
Proof.
  intros HL He Hi.
  assert (Y : (0 <= elapsed / loopDuration config)%Q).
  { apply Qle_shift_div_l; [exact HL|]. now rewrite Qmult_0_l. }
  destruct (rem_one_range _ Y) as [R0 R1].
  destruct (export_raw_range i total Hi) as [E0 E1].
  unfold PhaseClock.liveT, PhaseClock.exportT.
  destruct (JS.gt (posterize config) 0) eqn:P.
  - pose proof (steps_positive config HL P) as S.
    destruct (quantise_bounds _ _ S R0) as (A & B & _).
    destruct (quantise_bounds _ _ S E0) as (A' & B' & _).
    repeat split; trivial; eapply Qle_lt_trans; eassumption.
  - repeat split; trivial.
Qed.

Lemma phase_in_unit_interval_witness :
  (PhaseClock.liveT DEFAULT_CONFIG (7 # 2) < 1)%Q.
Proof.
  apply (phase_in_unit_interval DEFAULT_CONFIG (7 # 2) 72 5); reflexivity
    || discriminate.
Defined.

Lemma export_raw_monotone (i j : nat) (total : Q) :
  (0 < total)%Q -> (i <= j)%nat ->
  (inject_Z (Z.of_nat i) / total <= inject_Z (Z.of_nat j) / total)%Q.
Proof.
  intros T H. unfold Qdiv. apply Qmult_le_compat_r.
  - rewrite <- Zle_Qle. lia.
  - apply Qlt_le_weak. now apply Qinv_lt_0_compat.
Qed.

(** X3.  The export phase never runs backwards: a later frame index has a
    phase at least as large, and with posterize off a strictly larger one,
    so that no two frames of an export show the same phase. *)
Theorem export_phase_monotone
  (config : DisplacementConfig) (total : Q) (i j : nat) :
  (0 < loopDuration config)%Q ->
  (0 < total)%Q ->
  (i < j)%nat ->
  (PhaseClock.exportT config i total <= PhaseClock.exportT config j total)%Q
  /\ (JS.gt (posterize config) 0 = false ->
      (PhaseClock.exportT config i total < PhaseClock.exportT config j total)%Q).
Proof.
  intros HL HT Hij.
  assert (Hle : (i <= j)%nat) by lia.
  pose proof (export_raw_monotone i j total HT Hle) as M.
  unfold PhaseClock.exportT.
  destruct (JS.gt (posterize config) 0) eqn:P.
  - split; [|discriminate].
    pose proof (steps_positive config HL P) as S.
    unfold Qdiv at 1 3. apply Qmult_le_compat_r.
    + unfold JS.Math_floor. rewrite <- Zle_Qle. apply Qfloor_resp_le.
      apply Qmult_le_compat_r; [exact M|now apply Qlt_le_weak].
    + apply Qlt_le_weak. now apply Qinv_lt_0_compat.
  - split; [exact M|]. intros _.
    unfold Qdiv. apply Qmult_lt_compat_r.
    + now apply Qinv_lt_0_compat.
    + rewrite <- Zlt_Qlt. lia.
Qed.

Lemma export_phase_monotone_witness :
  (PhaseClock.exportT DEFAULT_CONFIG 3 72 < PhaseClock.exportT DEFAULT_CONFIG 4 72)%Q.
Proof.
  apply (export_phase_monotone DEFAULT_CONFIG 72 3 4); try reflexivity. lia.
Defined.


End Phase.

(** ** The seamless loop *)





(** ** The binary64 clocks over the loop controls *)

Lemma in_settings (duration rate steps : Q) (offered : list Q) :
  In duration Controls.loopDurations ->
  In rate Controls.frameRates ->
  In steps offered ->
  In (Controls.setting duration rate steps) (Controls.settings offered).
Proof.
  intros Hd Hr Hs. unfold Controls.settings.
  apply in_flat_map. exists duration. split; [exact Hd|].
  apply in_flat_map. exists rate. split; [exact Hr|].
  apply in_map. exact Hs.
Qed.

Lemma exportInOrder_controls :
  forallb Controls.exportInOrder (Controls.settings Controls.posterizes) = true.
Proof. vm_compute. reflexivity. Qed.

Lemma liveWraps_controls :
  forallb Controls.liveWraps (Controls.settings Controls.posterizes) = true.
Proof. vm_compute. reflexivity. Qed.

Lemma inOrder_spec (f : nat -> Binary64.float) (n : nat) :
  forall (start : nat) (previous : Binary64.float),
    Controls.inOrder previous (map f (seq start n)) = true ->
    forall i, (start <= i < start + n)%nat ->
      PrimFloat.leb (Binary64.ofZ 0) (f i) = true
      /\ PrimFloat.ltb (f i) (Binary64.ofZ 1) = true
      /\ ((S i < start + n)%nat -> PrimFloat.leb (f i) (f (S i)) = true).
Proof.
  induction n as [|n IH]; intros start previous H i Hi; [lia|].
  cbn [seq map Controls.inOrder] in H.
  apply andb_true_iff in H. destruct H as [H Hrest].
  apply andb_true_iff in H. destruct H as [H _].
  apply andb_true_iff in H. destruct H as [H0 H1].
  destruct (Nat.eq_dec i start) as [->|Hne].
  - split; [exact H0|]. split; [exact H1|].
    intro Hn. destruct n as [|n]; [lia|].
    cbn [seq map Controls.inOrder] in Hrest.
    apply andb_true_iff in Hrest. destruct Hrest as [Hrest _].
    apply andb_true_iff in Hrest. destruct Hrest as [_ Hle]. exact Hle.
  - destruct (IH (S start) (f start) Hrest i) as (A & B & C); [lia|].
    split; [exact A|]. split; [exact B|]. intro Hn. apply C. lia.
Qed.

(** X2.  On binary64 numbers, at every setting the loop controls offer: the
    frame count is a whole Number, frame 0 is exported at phase 0, and every
    frame of the export has a phase in [0, 1) that is not above the phase of
    the next frame. *)
Theorem binary64_export_phases_in_order (duration rate steps : Q) (i : nat) :
  In duration Controls.loopDurations ->
  In rate Controls.frameRates ->
  In steps Controls.posterizes ->
  let config := Controls.setting duration rate steps in
  let N := Binary64.totalFrames config in
  (i < Controls.frames config)%nat ->
  PrimFloat.eqb N (Binary64.ofNat (Controls.frames config)) = true
  /\ PrimFloat.eqb (Binary64.exportT config 0 N) (Binary64.ofZ 0) = true
  /\ PrimFloat.leb (Binary64.ofZ 0) (Binary64.exportT config i N) = true
  /\ PrimFloat.ltb (Binary64.exportT config i N) (Binary64.ofZ 1) = true
  /\ ((S i < Controls.frames config)%nat ->
      PrimFloat.leb (Binary64.exportT config i N)
                    (Binary64.exportT config (S i) N) = true).
Proof.
  intros Hd Hr Hs config N Hi.
  pose proof exportInOrder_controls as A.
  rewrite forallb_forall in A.
  specialize (A config (in_settings duration rate steps _ Hd Hr Hs)).
  unfold Controls.exportInOrder, Controls.exportPhases in A.
  cbv zeta in A. fold N in A.
  apply andb_true_iff in A. destruct A as [A F].
  apply andb_true_iff in A. destruct A as [A0 A1].
  split; [exact A0|]. split.
  { destruct (Controls.frames config) as [|n]; [lia|exact A1]. }
  destruct (inOrder_spec (fun k => Binary64.exportT config k N)
              (Controls.frames config) 0 (Binary64.ofZ 0) F i)
    as (B0 & B1 & B2); [lia|].
  split; [exact B0|]. split; [exact B1|exact B2].
Qed.

Lemma binary64_export_phases_in_order_witness :
  PrimFloat.ltb
    (Binary64.exportT (Controls.setting 3 24 4) 71
       (Binary64.totalFrames (Controls.setting 3 24 4)))
    (Binary64.ofZ 1) = true.
Proof.
  assert (Hd : In 3%Q Controls.loopDurations) by (simpl; tauto).
  assert (Hr : In 24%Q Controls.frameRates) by (simpl; tauto).
  assert (Hs : In 4%Q Controls.posterizes) by (vm_compute; tauto).
  assert (Hi : (71 < Controls.frames (Controls.setting 3 24 4))%nat)
    by (vm_compute; lia).
  destruct (binary64_export_phases_in_order 3 24 4 71 Hd Hr Hs Hi)
    as (_ & _ & _ & L & _).
  exact L.
Defined.

(** X4.  On binary64 numbers, at every setting the loop controls offer, the
    live phase is 0 at elapsed time 0 and is 0 again when the elapsed time
    reaches the loop duration: after one loop the animation is back at its
    first frame. *)
Theorem binary64_live_phase_wraps (duration rate steps : Q) :
  In duration Controls.loopDurations ->
  In rate Controls.frameRates ->
  In steps Controls.posterizes ->
  let config := Controls.setting duration rate steps in
  PrimFloat.eqb (Binary64.liveT config (Binary64.ofZ 0)) (Binary64.ofZ 0)
  = true
  /\ PrimFloat.eqb
       (Binary64.liveT config (Binary64.number (loopDuration config)))
       (Binary64.ofZ 0)
     = true.
Proof.
  intros Hd Hr Hs config.
  pose proof liveWraps_controls as A.
  rewrite forallb_forall in A.
  specialize (A config (in_settings duration rate steps _ Hd Hr Hs)).
  unfold Controls.liveWraps in A.
  apply andb_true_iff in A. exact A.
Qed.

Lemma binary64_live_phase_wraps_witness :
  PrimFloat.eqb
    (Binary64.liveT (Controls.setting (5 # 2) 6 6) (Binary64.number (5 # 2)))
    (Binary64.ofZ 0)
  = true.
Proof.
  assert (Hd : In (5 # 2)%Q Controls.loopDurations) by (simpl; tauto).
  assert (Hr : In 6%Q Controls.frameRates) by (simpl; tauto).
  assert (Hs : In 6%Q Controls.posterizes) by (vm_compute; tauto).
  destruct (binary64_live_phase_wraps (5 # 2) 6 6 Hd Hr Hs) as (_ & L).
  exact L.
Defined.

(** ** [exportFrames]: when it returns, when it rejects *)

Lemma exportLoop_all_extracted toBlob config total n :
  forall i blobs e,
    (forall k, (k < n)%nat -> toBlob (i + k)%nat <> None) ->
    exists frames e1,
      Hook.exportLoop toBlob config total n i blobs e = (inr frames, e1).
Proof.
  induction n as [|n IH]; intros i blobs e H.
  - simpl. unfold Eff.ret. eauto.
  - rewrite exportLoop_S.
    destruct (toBlob i) as [blob|] eqn:E.
    + simpl. apply IH. intros k Hk.
      replace (S i + k)%nat with (i + S k)%nat by lia. apply H. lia.
    + exfalso. apply (H 0%nat); [lia|]. now rewrite Nat.add_0_r.
Qed.

(** X5.  On an engine that has its application and filter, [exportFrames]
    returns whenever every extraction delivers a blob; it then returns one
    blob per loop iteration, blob [i] being the one extracted for frame
    [i]. *)
Theorem export_returns_when_all_frames_extracted
  (toBlob : nat -> option Blob) (now total : Q) (e : Engine) :
  initialized e ->
  (forall i, (i < Hook.tripCount total)%nat -> toBlob i <> None) ->
  exists frames e',
    Hook.exportFrames toBlob now total e = (inr frames, e')
    /\ List.length frames = Hook.tripCount total
    /\ (forall i, (i < Hook.tripCount total)%nat ->
                  toBlob i = Some (nth i frames (mkBlob [] EmptyString))).
Proof.
  intros I H.
  destruct (exportLoop_all_extracted toBlob (configRef e) total
              (Hook.tripCount total) 0 []
              (Hook.onApp (Hook.setTicker false) e) H) as (frames & e1 & L).
  exists frames, (Hook.exportLeave now e1).
  assert (X : Hook.exportFrames toBlob now total e
              = (inr frames, Hook.exportLeave now e1)).
  { unfold Hook.exportFrames. unfold Eff.bind at 1.
    destruct (exportEnter_spec e) as [[_ E]|[N _]]; [|contradiction].
    rewrite E. unfold Eff.bind at 1. rewrite L. reflexivity. }
  split; [exact X|].
  pose proof (f_equal fst L) as L'. simpl in L'.
  destruct (exportLoop_resolves _ _ _ _ _ _ _ _ L') as (new & E & Hlen & Hnth).
  simpl in E. subst new. split; [exact Hlen|exact Hnth].
Qed.

Lemma export_returns_when_all_frames_extracted_witness :
  exists frames e',
    Hook.exportFrames Sample.toBlobOk 9 (5 # 2) Sample.ready = (inr frames, e')
    /\ List.length frames = 3%nat.
Proof.
  destruct (export_returns_when_all_frames_extracted Sample.toBlobOk 9 (5 # 2)
              Sample.ready ready_initialized)
    as (frames & e' & X & L & _).
  - intros i _. discriminate.
  - exists frames, e'. split; [exact X|exact L].
Defined.

Lemma exportLoop_rejected toBlob config total n :
  forall i blobs e err e1,
    initialized e ->
    Hook.exportLoop toBlob config total n i blobs e = (inl err, e1) ->
    err = JS.mkError "toBlob failed"
    /\ initialized e1
    /\ exists k,
         (k < n)%nat
         /\ toBlob (i + k)%nat = None
         /\ (forall j, (j < k)%nat -> toBlob (i + j)%nat <> None)
         /\ timeVecOf e1
            = Some (PhaseClock.timeVec
                      (PhaseClock.exportT config (i + k) total)).
Proof.
  induction n as [|n IH]; intros i blobs e err e1 I H.
  - discriminate.
  - rewrite exportLoop_S in H.
    pose proof (exportStep_initialized config total i e I) as I1.
    destruct (toBlob i) as [blob|] eqn:E; simpl in H.
    + destruct (IH _ _ _ _ _ I1 H) as (-> & I2 & k & Hk & Hn & Hb & Ht).
      split; [reflexivity|]. split; [exact I2|].
      exists (S k). replace (i + S k)%nat with (S i + k)%nat by lia.
      repeat split; trivial; [lia|].
      intros [|j] Hj.
      * rewrite Nat.add_0_r. congruence.
      * replace (i + S j)%nat with (S i + j)%nat by lia. apply Hb. lia.
    + injection H as <- <-. split; [reflexivity|]. split; [exact I1|].
      exists 0%nat. rewrite Nat.add_0_r.
      repeat split; trivial; [lia| |].
      * intros j Hj. lia.
      * now apply exportStep_timeVec.
Qed.

Lemma exportFrames_rejected_cases toBlob now total e err e' :
  Hook.exportFrames toBlob now total e = (inl err, e') ->
  (~ initialized e /\ err = JS.mkError "Engine not initialized" /\ e' = e)
  \/ (initialized e
      /\ err = JS.mkError "toBlob failed"
      /\ initialized e'
      /\ tickerOf e' = Some false
      /\ exists k,
           (k < Hook.tripCount total)%nat
           /\ toBlob k = None
           /\ (forall j, (j < k)%nat -> toBlob j <> None)
           /\ timeVecOf e'
              = Some (PhaseClock.timeVec
                        (PhaseClock.exportT (configRef e) k total))).
Proof.
  unfold Hook.exportFrames. unfold Eff.bind at 1.
  destruct (exportEnter_spec e) as [[I E]|[N E]]; rewrite E.
  - unfold Eff.bind at 1.
    pose proof (exportLoop_frame toBlob (configRef e) total
                  (Hook.tripCount total) 0 []
                  (Hook.onApp (Hook.setTicker false) e)) as F.
    destruct (Hook.exportLoop toBlob (configRef e) total (Hook.tripCount total)
                0 [] (Hook.onApp (Hook.setTicker false) e))
      as [[err1|frames] e1] eqn:L.
    + intro H. injection H as <- <-. right.
      destruct (exportLoop_rejected _ _ _ _ _ _ _ _ _
                  (stop_ticker_initialized e I) L)
        as (-> & I1 & k & Hk & Hn & Hb & Ht).
      simpl in F. destruct F as (T & _).
      split; [exact I|]. split; [reflexivity|]. split; [exact I1|].
      split; [rewrite T; now apply stop_ticker|].
      exists k. simpl in Hn, Hb, Ht. auto.
    + unfold Eff.bind, Eff.modify, Eff.ret. discriminate.
  - intro H. injection H as <- <-. left. auto.
Qed.



(** X7.  A failed export can be made good: after a rejection with "toBlob
    failed", a later call whose extractions all deliver returns its frames
    and leaves the ticker running, with the time origin at its end. *)
Theorem export_recovers_after_failure
  (toBlob1 toBlob2 : nat -> option Blob) (now1 total1 now2 total2 : Q)
  (e e1 : Engine) :
  Hook.exportFrames toBlob1 now1 total1 e
  = (inl (JS.mkError "toBlob failed"), e1) ->
  (forall i, (i < Hook.tripCount total2)%nat -> toBlob2 i <> None) ->
  tickerOf e1 = Some false
  /\ exists frames e2,
       Hook.exportFrames toBlob2 now2 total2 e1 = (inr frames, e2)
       /\ List.length frames = Hook.tripCount total2
       /\ tickerOf e2 = Some true
       /\ startTimeRef e2 = now2.
Proof.
  intros H1 H2.
  destruct (exportFrames_rejected_cases _ _ _ _ _ _ H1)
    as [(_ & C & _)|(_ & _ & I1 & T & _)]; [discriminate|].
  split; [exact T|].
  destruct (exportLoop_all_extracted toBlob2 (configRef e1) total2
              (Hook.tripCount total2) 0 []
              (Hook.onApp (Hook.setTicker false) e1) H2) as (frames & e2 & L).
  exists frames, (Hook.exportLeave now2 e2).
  assert (X : Hook.exportFrames toBlob2 now2 total2 e1
              = (inr frames, Hook.exportLeave now2 e2)).
  { unfold Hook.exportFrames. unfold Eff.bind at 1.
    destruct (exportEnter_spec e1) as [[_ E]|[N _]]; [|contradiction].
    rewrite E. unfold Eff.bind at 1. rewrite L. reflexivity. }
  pose proof (exportLoop_frame toBlob2 (configRef e1) total2
                (Hook.tripCount total2) 0 []
                (Hook.onApp (Hook.setTicker false) e1)) as F.
  rewrite L in F. simpl in F. destruct F as (_ & _ & _ & I2).
  pose proof (f_equal fst L) as L'. simpl in L'.
  destruct (exportLoop_resolves _ _ _ _ _ _ _ _ L') as (new & E & Hlen & _).
  simpl in E. subst new.
  split; [exact X|]. split; [exact Hlen|].
  split; [|reflexivity].
  apply exportLeave_ticker. apply I2. now apply stop_ticker_initialized.
Qed.

Lemma export_recovers_after_failure_witness :
  exists frames e2,
    Hook.exportFrames Sample.toBlobOk 20 2
      (snd (Hook.exportFrames Sample.toBlobNull 10 2 Sample.ready))
    = (inr frames, e2)
    /\ tickerOf e2 = Some true.
Proof.
  destruct (export_recovers_after_failure Sample.toBlobNull Sample.toBlobOk
              10 2 20 2 Sample.ready
              (snd (Hook.exportFrames Sample.toBlobNull 10 2 Sample.ready))
              eq_refl)
    as (_ & frames & e2 & X & _ & T & _).
  - intros i _. discriminate.
  - exists frames, e2. split; [exact X|exact T].
Defined.

(** X8.  An export of no frames (a frame count of 0 or less) asks for no
    extraction and renders nothing, yet it still restarts the ticker and
    moves the time origin to [now]. *)
Theorem export_of_no_frames
  (now total : Q) (e : Engine) :
  initialized e ->
  (total <= 0)%Q ->
  exists e',
    (forall toBlob, Hook.exportFrames toBlob now total e = (inr [], e'))
    /\ timeVecOf e' = timeVecOf e
    /\ option_map view (pixi_app (pixiRef e'))
       = option_map view (pixi_app (pixiRef e))
    /\ tickerOf e' = Some true
    /\ startTimeRef e' = now.
Proof.
  intros I Ht.
  assert (N : Hook.tripCount total = 0%nat).
  { unfold Hook.tripCount.
    assert (C : (Qceiling total <= Qceiling 0)%Z) by now apply Qceiling_resp_le.
    change (Qceiling 0) with 0%Z in C. lia. }
  exists (Hook.exportLeave now (Hook.onApp (Hook.setTicker false) e)).
  split; [|split; [|split; [|split]]].
  - intro toBlob. unfold Hook.exportFrames. unfold Eff.bind at 1.
    destruct (exportEnter_spec e) as [[_ E]|[C _]]; [|contradiction].
    rewrite E, N. reflexivity.
  - reflexivity.
  - unfold Hook.exportLeave, Hook.onApp, Hook.onPixi. simpl.
    now destruct (pixi_app (pixiRef e)).
  - apply exportLeave_ticker. now apply stop_ticker_initialized.
  - reflexivity.
Qed.

Lemma export_of_no_frames_witness :
  exists e',
    Hook.exportFrames Sample.toBlobNull 7 0 Sample.ready = (inr [], e')
    /\ startTimeRef e' = 7.
Proof.
  destruct (export_of_no_frames 7 0 Sample.ready ready_initialized)
    as (e' & X & _ & _ & _ & S); [discriminate|].
  exists e'. split; [apply X|exact S].
Defined.

(** ** What a frame may change *)

Lemma forget_exportStep config total i e :
  Frame.forget (Hook.exportStep config total i e) = Frame.forget e.
Proof.
  destruct e as [[[a|] [f|] s P] c t d]; reflexivity.
Qed.

Lemma forget_tick now e : Frame.forget (Hook.tick now e) = Frame.forget e.
Proof.
  destruct e as [[[a|] [f|] s P] c t d]; try reflexivity;
    unfold Hook.tick; simpl; destruct (tickerStarted a); reflexivity.
Qed.

Lemma forget_exportLoop toBlob config total n :
  forall i blobs e,
    Frame.forget (snd (Hook.exportLoop toBlob config total n i blobs e))
    = Frame.forget e.
Proof.
  induction n as [|n IH]; intros i blobs e; [reflexivity|].
  rewrite exportLoop_S.
  destruct (Hook.toBlobPromise (toBlob i)) as [err|blob]; simpl.
  - apply forget_exportStep.
  - rewrite IH. apply forget_exportStep.
Qed.

Lemma forgetClock_stop e :
  Frame.forgetClock (Hook.onApp (Hook.setTicker false) e) = Frame.forgetClock e.
Proof. destruct e as [[[a|] [f|] s P] c t d]; reflexivity. Qed.

Lemma forgetClock_leave now e :
  Frame.forgetClock (Hook.exportLeave now e) = Frame.forgetClock e.
Proof. destruct e as [[[a|] [f|] s P] c t d]; reflexivity. Qed.

Lemma forgetClock_exportFrames toBlob now total e :
  Frame.forgetClock (snd (Hook.exportFrames toBlob now total e))
  = Frame.forgetClock e.
Proof.
  unfold Hook.exportFrames. unfold Eff.bind at 1.
  destruct (exportEnter_spec e) as [[_ E]|[_ E]]; rewrite E; [|reflexivity].
  unfold Eff.bind at 1.
  pose proof (forget_exportLoop toBlob (configRef e) total
                (Hook.tripCount total) 0 []
                (Hook.onApp (Hook.setTicker false) e)) as F.
  destruct (Hook.exportLoop toBlob (configRef e) total (Hook.tripCount total)
              0 [] (Hook.onApp (Hook.setTicker false) e))
    as [[err|frames] e1]; simpl in F.
  - simpl. rewrite <- (forgetClock_stop e).
    unfold Frame.forgetClock. now rewrite F.
  - unfold Eff.bind, Eff.modify, Eff.ret. simpl.
    rewrite forgetClock_leave, <- (forgetClock_stop e).
    unfold Frame.forgetClock. now rewrite F.
Qed.

(** X9.  Rendering frames changes nothing but the clock: a display refresh
    leaves every ref as it was except the filter's [uTimeVec] and the canvas
    contents, and a call of [exportFrames] -- returned or rejected --
    additionally changes only the ticker state and the time origin.  The
    configuration, the filter's other uniforms and padding, the sprite, the
    renderer size, the background and the stage are never touched. *)
Theorem frames_change_only_the_clock
  (toBlob : nat -> option Blob) (now total : Q) (e : Engine) :
  Frame.forget (Hook.tick now e) = Frame.forget e
  /\ startTimeRef (Hook.tick now e) = startTimeRef e
  /\ tickerOf (Hook.tick now e) = tickerOf e
  /\ Frame.forgetClock (snd (Hook.exportFrames toBlob now total e))
     = Frame.forgetClock e.
Proof.
  split; [apply forget_tick|].
  split.
  { destruct e as [[[a|] [f|] s P] c t d]; try reflexivity;
      unfold Hook.tick; simpl; destruct (tickerStarted a); reflexivity. }
  split.
  { destruct e as [[[a|] [f|] s P] c t d]; try reflexivity;
      unfold Hook.tick, tickerOf; simpl;
      destruct (tickerStarted a) eqn:T; simpl; now rewrite ?T. }
  apply forgetClock_exportFrames.
Qed.

(** ** The filter follows the configuration *)

Lemma synced_transfer e e' :
  configRef e' = configRef e ->
  option_map (Hook.setTimeVec (1%R, 0%R)) (pixi_filter (pixiRef e'))
  = option_map (Hook.setTimeVec (1%R, 0%R)) (pixi_filter (pixiRef e)) ->
  Frame.synced e -> Frame.synced e'.
Proof.
  intros C P S f' Hf'. rewrite Hf' in P.
  destruct (pixi_filter (pixiRef e)) as [f|] eqn:Hf; [|discriminate].
  simpl in P. injection P as P1 P2 P3 P4 P5 P6 P7 P8 P9.
  destruct (S f Hf) as (S1 & S2 & S3 & S4 & S5 & S6 & S7 & S8).
  rewrite C. repeat split; congruence.
Qed.

Lemma synced_of_forget e e' :
  Frame.forget e' = Frame.forget e -> Frame.synced e -> Frame.synced e'.
Proof.
  intro F. apply synced_transfer.
  - apply (f_equal configRef) in F. exact F.
  - apply (f_equal (fun x => pixi_filter (pixiRef x))) in F. exact F.
Qed.

Lemma synced_of_forgetClock e e' :
  Frame.forgetClock e' = Frame.forgetClock e ->
  Frame.synced e -> Frame.synced e'.
Proof.
  intro F. apply synced_transfer.
  - apply (f_equal configRef) in F. exact F.
  - apply (f_equal (fun x => pixi_filter (pixiRef x))) in F. exact F.
Qed.

Lemma synced_updateConfig partial e :
  Frame.synced (snd (Hook.updateConfig partial e)).
Proof.
  destruct e as [[[a|] [f|] s P] c t d]; intros f' H; simpl in H;
    try discriminate; injection H as <-; repeat split; reflexivity.
Qed.

Lemma synced_loadImage source e :
  Frame.synced e -> Frame.synced (snd (Hook.loadImage source e)).
Proof.
  intro S.
  destruct e as [[[a|] fo [s|] [|]] c t d]; try exact S;
    intros f' H; simpl in H; injection H as <-; repeat split; reflexivity.
Qed.

(** X10.  The filter always carries the current configuration: once its
    uniforms and padding agree with the engine's configuration -- as they do
    after any [updateConfig] and after a [loadImage] that takes effect --
    they keep agreeing through [loadImage], [updateConfig], display
    refreshes and exports. *)
Theorem filter_follows_config
  (e : Engine) (source : Source) (partial : PartialConfig)
  (toBlob : nat -> option Blob) (now total : Q) :
  Frame.synced e ->
  Frame.synced (snd (Hook.loadImage source e))
  /\ Frame.synced (snd (Hook.updateConfig partial e))
  /\ Frame.synced (Hook.tick now e)
  /\ Frame.synced (snd (Hook.exportFrames toBlob now total e))
  /\ Frame.synced (snd (Hook.destroy e)).
Proof.
  intro S.
  split; [now apply synced_loadImage|].
  split; [apply synced_updateConfig|].
  split; [apply (synced_of_forget e); [apply forget_tick|exact S]|].
  split.
  - apply (synced_of_forgetClock e); [|exact S].
    apply forgetClock_exportFrames.
  - destruct e as [[[a|] [f|] s P] c t d]; try exact S;
      intros f' H; discriminate.
Qed.

Lemma ready_synced : Frame.synced Sample.ready.
Proof. intros f H. injection H as <-. repeat split; reflexivity. Qed.

Lemma filter_follows_config_witness :
  Frame.synced
    (snd (Hook.updateConfig
            (mkPartial (Some 8) None None None None None None None None None
                       None None) Sample.ready)).
Proof.
  apply (filter_follows_config Sample.ready (ImageElement 1 1)
           (mkPartial (Some 8) None None None None None None None None None
                      None None) Sample.toBlobOk 0 1 ready_synced).
Defined.

(** ** [updateConfig] *)

Lemma orElse_twice {A : Type} (o : option A) (d : A) :
  Hook.orElse o (Hook.orElse o d) = Hook.orElse o d.
Proof. now destruct o. Qed.

Lemma merge_twice config partial :
  Hook.merge (Hook.merge config partial) partial = Hook.merge config partial.
Proof.
  unfold Hook.merge. cbn [amountPx size octaves speed seed edgeStrength
    edgeThreshold loopDuration fps bgTransparent bgColor posterize].
  now rewrite !orElse_twice.
Qed.

Lemma updateBackground_twice config a :
  Hook.updateBackground config (Hook.updateBackground config a)
  = Hook.updateBackground config a.
Proof.
  unfold Hook.updateBackground. now destruct (bgTransparent config).
Qed.

Lemma updateConfig_state partial e :
  Hook.updateConfig partial e
  = (inr tt,
     Hook.onApp (Hook.updateBackground (Hook.merge (configRef e) partial))
       (Hook.onFilter (Hook.pushUniforms (Hook.merge (configRef e) partial))
          (Hook.setConfig (Hook.merge (configRef e) partial) e))).
Proof. reflexivity. Qed.

(** X11.  [updateConfig] never throws and never disturbs the animation: the
    time origin, the ticker state, the filter's [uTimeVec] and [uResolution],
    the sprite and the renderer size stay as they were.  Applying the same
    partial configuration a second time changes nothing further (so a
    repeated invocation of the page's state updater is harmless). *)
Theorem updateConfig_keeps_the_clock_and_is_idempotent
  (partial : PartialConfig) (e : Engine) :
  let e' := snd (Hook.updateConfig partial e) in
  fst (Hook.updateConfig partial e) = inr tt
  /\ configRef e' = Hook.merge (configRef e) partial
  /\ startTimeRef e' = startTimeRef e
  /\ tickerOf e' = tickerOf e
  /\ timeVecOf e' = timeVecOf e
  /\ option_map (fun f => uResolution (uniforms f)) (pixi_filter (pixiRef e'))
     = option_map (fun f => uResolution (uniforms f)) (pixi_filter (pixiRef e))
  /\ pixi_sprite (pixiRef e') = pixi_sprite (pixiRef e)
  /\ option_map rendererSize (pixi_app (pixiRef e'))
     = option_map rendererSize (pixi_app (pixiRef e))
  /\ snd (Hook.updateConfig partial e') = e'.
Proof.
  intro e'. subst e'.
  repeat split;
    try (destruct e as [[[a|] [f|] s P] c t d]; reflexivity).
  - destruct e as [[[a|] [f|] s P] c t d]; unfold tickerOf; simpl; trivial;
      unfold Hook.updateBackground; now destruct (bgTransparent _).
  - destruct e as [[[a|] [f|] s P] c t d]; simpl; trivial;
      unfold Hook.updateBackground; now destruct (bgTransparent _).
  - rewrite !updateConfig_state. cbn [snd].
    destruct e as [[[a|] [f|] s P] c t d];
      cbn [Hook.setConfig Hook.onFilter Hook.onApp Hook.onPixi Hook.setApp
           Hook.setFilter pixiRef configRef startTimeRef destroyedRef
           pixi_app pixi_filter pixi_sprite pixi_PIXI option_map];
      rewrite merge_twice; generalize (Hook.merge c partial); intro m;
      unfold Hook.onApp, Hook.onFilter, Hook.onPixi, Hook.setConfig,
        Hook.setApp, Hook.setFilter; simpl;
      rewrite ?updateBackground_twice; reflexivity.
Qed.

(** ** [loadImage] *)



(** X13.  An image handed over before the application exists is dropped
    without a sign: [loadImage] returns normally and changes nothing, the
    page nevertheless records that it has an image and enables the export
    buttons, and when the initialisation completes afterwards the engine
    still has no filter -- refreshes set no time vector and every export
    rejects with "Engine not initialized" until an image is loaded again. *)
Theorem image_loaded_before_init_is_dropped
  (source : Source) (s : PageState.State) (e : Engine)
  (canvasWidth canvasHeight : Z) (now : Q) :
  pixi_app (pixiRef e) = None ->
  pixi_filter (pixiRef e) = None ->
  let s' := fst (PageState.handleImageLoaded source s e) in
  let e' := snd (PageState.handleImageLoaded source s e) in
  let e'' := Hook.init false canvasWidth canvasHeight now e' in
  e' = e
  /\ PageState.hasImage s' = true
  /\ ExportPanel.disabled (PageState.hasImage s') None = false
  /\ pixi_filter (pixiRef e'') = None
  /\ (forall later, timeVecOf (Hook.tick later e'') = None)
  /\ (forall toBlob finish total,
        Hook.exportFrames toBlob finish total e''
        = (inl (JS.mkError "Engine not initialized"), e'')).
Proof.
  intros A F s' e' e''.
  assert (E : e' = e).
  { subst e'. unfold PageState.handleImageLoaded. cbn [snd].
    now rewrite loadImage_without_app. }
  assert (F'' : pixi_filter (pixiRef e'') = None).
  { subst e''. rewrite E. unfold Hook.init.
    destruct (false || destroyedRef e); [exact F|]. simpl. exact F. }
  split; [exact E|]. split; [reflexivity|]. split; [reflexivity|].
  split; [exact F''|]. split.
  - intro later. unfold timeVecOf, Hook.tick, Hook.tickerCallback.
    destruct (pixi_app (pixiRef e'')) as [a|] eqn:A''.
    + rewrite F''. destruct (tickerStarted a).
      * unfold Hook.render, Hook.onApp, Hook.onPixi. simpl. now rewrite F''.
      * now rewrite F''.
    + now rewrite F''.
  - intros toBlob finish total. unfold Hook.exportFrames.
    unfold Eff.bind at 1.
    destruct (exportEnter_spec e'') as [[[_ I] _]|[_ X]]; [congruence|].
    now rewrite X.
Qed.

Lemma image_loaded_before_init_is_dropped_witness :
  Hook.exportFrames Sample.toBlobOk 9 72
    (Hook.init false 800 600 1
       (snd (PageState.handleImageLoaded (ImageElement 100 100)
               PageState.initial Hook.initialEngine)))
  = (inl (JS.mkError "Engine not initialized"),
     Hook.init false 800 600 1
       (snd (PageState.handleImageLoaded (ImageElement 100 100)
               PageState.initial Hook.initialEngine))).
Proof.
  apply (image_loaded_before_init_is_dropped (ImageElement 100 100)
           PageState.initial Hook.initialEngine 800 600 1 eq_refl eq_refl).
Defined.

(** ** [destroy], the effect cleanup and a late [init] *)

(** X14.  Nothing revives a destroyed engine short of a new run of the
    effect: a second [destroy], the effect's cleanup, a display refresh and
    an initialisation that completes after the [destroy] all leave it exactly
    as it is. *)
Theorem destroyed_engine_stays_destroyed
  (e : Engine) (cancelled : bool) (canvasWidth canvasHeight : Z) (now : Q) :
  let e' := snd (Hook.destroy e) in
  snd (Hook.destroy e') = e'
  /\ Hook.cleanup e' = e'
  /\ Hook.tick now e' = e'
  /\ Hook.init cancelled canvasWidth canvasHeight now e' = e'
  /\ pixi_app (pixiRef (Hook.init false canvasWidth canvasHeight now
                          (Hook.effectStart e')))
     = Some (Hook.newApplication canvasWidth canvasHeight).
Proof.
  intro e'. subst e'.
  destruct e as [[[a|] fo so P] c t d]; repeat split;
    try reflexivity; unfold Hook.init; simpl;
    now rewrite orb_true_r.
Qed.

(** ** The page and the engine hold the same configuration *)

Lemma configRef_loadImage source e :
  configRef (snd (Hook.loadImage source e)) = configRef e.
Proof.
  destruct e as [[[a|] fo [s|] [|]] c t d]; reflexivity.
Qed.

(** X15.  The page's copy of the configuration and the engine's stay equal:
    they start equal, and [handleConfigChange], [handleImageLoaded], display
    refreshes and exports keep them equal.  So the frame count the page
    computes is the one that fits the durations the engine renders with, and
    the image size the page passes to the WebM sink is the size of the
    renderer. *)
Theorem page_and_engine_config_agree
  (s : PageState.State) (e : Engine) (partial : PartialConfig)
  (source : Source) (toBlob : nat -> option Blob) (now total : Q) :
  PageState.config s = configRef e ->
  PageState.config PageState.initial = configRef Hook.initialEngine
  /\ PageState.config (fst (PageState.handleConfigChange partial s e))
     = configRef (snd (PageState.handleConfigChange partial s e))
  /\ PageState.config (fst (PageState.handleImageLoaded source s e))
     = configRef (snd (PageState.handleImageLoaded source s e))
  /\ PageState.config s = configRef (Hook.tick now e)
  /\ PageState.config s = configRef (snd (Hook.exportFrames toBlob now total e))
  /\ ExportPanel.totalFrames (PageState.config s)
     = JS.Math_round (loopDuration (configRef e) * fps (configRef e))
  /\ (pixi_app (pixiRef e) <> None -> pixi_PIXI (pixiRef e) = true ->
      option_map rendererSize
        (pixi_app (pixiRef (snd (PageState.handleImageLoaded source s e))))
      = PageState.imageSize (fst (PageState.handleImageLoaded source s e))).
Proof.
  intro H.
  split; [reflexivity|].
  split.
  { unfold PageState.handleConfigChange. cbn [fst snd PageState.config].
    rewrite H. destruct e as [[[a|] [f|] sp P] c t d]; reflexivity. }
  split.
  { unfold PageState.handleImageLoaded. cbn [fst snd PageState.config].
    now rewrite configRef_loadImage. }
  split.
  { rewrite H. pose proof (forget_tick now e) as F.
    apply (f_equal configRef) in F. symmetry. exact F. }
  split.
  { rewrite H. pose proof (forgetClock_exportFrames toBlob now total e) as F.
    apply (f_equal configRef) in F. symmetry. exact F. }
  split.
  { unfold ExportPanel.totalFrames. now rewrite H. }
  intros A P. unfold PageState.handleImageLoaded.
  cbn [fst snd PageState.imageSize].
  destruct e as [[[a|] fo [sp|] [|]] c t d]; simpl in A, P;
    try congruence; simpl; unfold Hook.updateBackground;
    now destruct (bgTransparent c).
Qed.

Lemma page_and_engine_config_agree_witness :
  PageState.config
    (fst (PageState.handleConfigChange
            (mkPartial None None None None None None None (Some 5) None None
                       None None) PageState.initial Sample.ready))
  = configRef
      (snd (PageState.handleConfigChange
              (mkPartial None None None None None None None (Some 5) None None
                         None None) PageState.initial Sample.ready)).
Proof.
  apply (page_and_engine_config_agree PageState.initial Sample.ready
           (mkPartial None None None None None None None (Some 5) None None
                      None None) (ImageElement 1 1) Sample.toBlobOk 0 1
           eq_refl).
Defined.

(** ** The WebM sink *)

Lemma pushFrames_decodes browser frames pushed :
  Webm.pushFrames browser frames = inr pushed ->
  map (Webm.createImageBitmap browser) frames = map inr pushed.
Proof.
  revert pushed. induction frames as [|f rest IH]; simpl; intros pushed H.
  - now injection H as <-.
  - destruct (Webm.createImageBitmap browser f) as [err|bitmap]; [discriminate|].
    destruct (Webm.pushFrames browser rest) as [err|rest']; [discriminate|].
    injection H as <-. simpl. f_equal. now apply IH.
Qed.

Lemma concat_keepChunk (data : list Blob) :
  List.concat (map blobParts (filter Webm.keepChunk data))
  = List.concat (map blobParts data).
Proof.
  induction data as [|b rest IH]; [reflexivity|].
  simpl. unfold Webm.keepChunk at 1.
  destruct (blobParts b) as [|x xs] eqn:E; simpl.
  - exact IH.
  - rewrite E. simpl. now rewrite IH.
Qed.

(** X16.  A WebM export that resolves has pushed every frame to the
    recorder, decoded, in the order given, and its blob holds every byte the
    recorder emitted, in order: dropping the empty chunks loses nothing.  Its
    type is the MIME type the recorder was created with. *)
Theorem webm_export_keeps_every_frame_and_byte
  (browser : Webm.Browser) (frames : list Blob) (width height : Z) (fps : Q)
  (blob : Blob) :
  Webm.exportWebm browser frames width height fps = inr blob ->
  exists pushed data,
    map (Webm.createImageBitmap browser) frames = map inr pushed
    /\ List.length pushed = List.length frames
    /\ Webm.record browser (Webm.mimeType browser) 8000000 pushed = inr data
    /\ blobParts blob = List.concat (map blobParts data)
    /\ blobType blob = Webm.mimeType browser.
Proof.
  unfold Webm.exportWebm.
  destruct (Webm.newMediaRecorder browser (Webm.mimeType browser) 8000000)
    as [err|created]; [discriminate|].
  destruct (Webm.start browser (Webm.mimeType browser) 8000000)
    as [err|started]; [discriminate|].
  destruct (Webm.pushFrames browser frames) as [err|pushed] eqn:P;
    [discriminate|].
  destruct (Webm.record browser (Webm.mimeType browser) 8000000 pushed)
    as [err|data] eqn:Rc; [discriminate|].
  intro H. injection H as <-. exists pushed, data.
  pose proof (pushFrames_decodes _ _ _ P) as D.
  split; [exact D|]. split.
  - apply (f_equal (@List.length _)) in D. rewrite !length_map in D. congruence.
  - split; [exact Rc|]. split; [apply concat_keepChunk|reflexivity].
Qed.

Lemma webm_export_keeps_every_frame_and_byte_witness :
  exists pushed data,
    List.length pushed = 2%nat
    /\ Webm.record Sample.browserWithoutVp9 "video/webm" 8000000 pushed
       = inr data.
Proof.
  destruct (webm_export_keeps_every_frame_and_byte Sample.browserWithoutVp9
              [Sample.pngBlob Byte.x01; Sample.pngBlob Byte.x02] 4 4 24
              {| blobParts := [Byte.x01; Byte.x02]; blobType := "video/webm" |}
              eq_refl) as (pushed & data & _ & L & Rc & _).
  exists pushed, data. split; [exact L|exact Rc].
Defined.

(** X17.  Once the recorder has been created and started, a WebM export
    rejects with the error of the first frame that cannot be decoded,
    whatever the later frames and the recorder would have done. *)
Theorem webm_export_rejects_with_first_decode_error
  (browser : Webm.Browser) (before after : list Blob) (bad : Blob)
  (err : JS.Error) (width height : Z) (fps : Q) (started : unit) :
  Webm.isTypeSupported browser (Webm.mimeType browser) = true ->
  Webm.start browser (Webm.mimeType browser) 8000000 = inr started ->
  (forall frame, In frame before ->
                 exists bitmap, Webm.createImageBitmap browser frame = inr bitmap) ->
  Webm.createImageBitmap browser bad = inl err ->
  Webm.exportWebm browser (before ++ bad :: after) width height fps = inl err.
Proof.
  intros Hsup Hstart Hok Hbad. unfold Webm.exportWebm, Webm.newMediaRecorder.
  rewrite Hsup, Hstart.
  assert (P : Webm.pushFrames browser (before ++ bad :: after) = inl err).
  { induction before as [|f rest IH]; simpl.
    - now rewrite Hbad.
    - destruct (Hok f (or_introl eq_refl)) as (bitmap & ->).
      rewrite IH; [reflexivity|]. intros fr Hin. apply Hok. now right. }
  now rewrite P.
Qed.

Lemma webm_export_rejects_with_first_decode_error_witness :
  Webm.exportWebm More.strictBrowser
    ([Sample.pngBlob Byte.x01] ++ mkBlob [] "image/png"
       :: [Sample.pngBlob Byte.x02])
    4 4 24
  = inl (JS.mkError "The source image could not be decoded.").
Proof.
  apply (webm_export_rejects_with_first_decode_error More.strictBrowser
           [Sample.pngBlob Byte.x01] [Sample.pngBlob Byte.x02]
           (mkBlob [] "image/png")
           (JS.mkError "The source image could not be decoded.") 4 4 24 tt).
  - reflexivity.
  - reflexivity.
  - intros frame [<-|[]]. eexists. reflexivity.
  - reflexivity.
Defined.

(** ** The PNG archive: reading entries back *)

Lemma frameName_eqb_false (i j : nat) :
  i <> j -> String.eqb (PngSequence.frameName i) (PngSequence.frameName j) = false.
Proof.
  intro H. apply String.eqb_neq. intro E. apply H. now apply frameName_inj.
Qed.

Lemma entries_cons (i : nat) (f : Blob) (rest : list Blob) :
  entries i (f :: rest)
  = (PngSequence.frameName i, blobParts f) :: entries (S i) rest.
Proof. reflexivity. Qed.

Lemma get_cons key k v rest :
  Zip.get key ((k, v) :: rest)
  = if String.eqb k key then Some v else Zip.get key rest.
Proof. reflexivity. Qed.

Lemma get_entries_missing (frames : list Blob) :
  forall i key,
    (forall j, (j < List.length frames)%nat ->
               key <> PngSequence.frameName (i + j)) ->
    Zip.get key (entries i frames) = None.
Proof.
  induction frames as [|f rest IH]; intros i key H; [reflexivity|].
  rewrite entries_cons, get_cons.
  destruct (String.eqb (PngSequence.frameName i) key) eqn:E.
  - apply String.eqb_eq in E. exfalso. apply (H 0%nat); [simpl; lia|].
    now rewrite Nat.add_0_r.
  - apply IH. intros j Hj.
    replace (S i + j)%nat with (i + S j)%nat by lia. apply H. simpl. lia.
Qed.

Lemma get_entries (frames : list Blob) :
  forall i k,
    (k < List.length frames)%nat ->
    Zip.get (PngSequence.frameName (i + k)) (entries i frames)
    = Some (blobParts (nth k frames (mkBlob [] EmptyString))).
Proof.
  induction frames as [|f rest IH]; intros i k Hk; [simpl in Hk; lia|].
  rewrite entries_cons, get_cons.
  destruct k as [|k].
  - rewrite Nat.add_0_r, String.eqb_refl. reflexivity.
  - rewrite frameName_eqb_false by lia.
    replace (i + S k)%nat with (S i + k)%nat by lia.
    apply IH. simpl in Hk. lia.
Qed.

Lemma entries_names (frames : list Blob) :
  forall i,
    map fst (entries i frames)
    = map PngSequence.frameName (seq i (List.length frames)).
Proof.
  induction frames as [|f rest IH]; intro i; [reflexivity|].
  rewrite entries_cons. cbn [map fst List.length seq]. now rewrite IH.
Qed.

Lemma frameNames_NoDup (l : list nat) :
  NoDup l -> NoDup (map PngSequence.frameName l).
Proof.
  induction 1 as [|x l Hx Hl IH]; simpl; constructor; [|exact IH].
  intro Hin. apply in_map_iff in Hin as (y & E & Hy).
  apply frameName_inj in E. now subst y.
Qed.

(** X18.  Every frame can be read back from the table by its name: the
    entry [frame_<i>.png] holds the bytes of frame [i], no name occurs twice
    (no frame overwrites another, however many there are), and a name that
    is not the name of one of the frames is absent. *)
Theorem archive_entries_read_back (frames : list Blob) (i : nat) (key : string) :
  (i < List.length frames)%nat ->
  Zip.get (PngSequence.frameName i) (PngSequence.zipFiles frames)
  = Some (blobParts (nth i frames (mkBlob [] EmptyString)))
  /\ NoDup (map fst (PngSequence.zipFiles frames))
  /\ ((forall j, (j < List.length frames)%nat ->
                 key <> PngSequence.frameName j) ->
      Zip.get key (PngSequence.zipFiles frames) = None).
Proof.
  intro Hi. rewrite zipFiles_entries.
  split; [exact (get_entries frames 0 i Hi)|].
  split.
  - rewrite entries_names.
    apply frameNames_NoDup, seq_NoDup.
  - intro H. apply get_entries_missing. exact H.
Qed.

Lemma archive_entries_read_back_witness :
  Zip.get "frame_0001.png"
    (PngSequence.zipFiles [Sample.pngBlob Byte.x0a; Sample.pngBlob Byte.x0b])
  = Some [Byte.x0b].
Proof.
  apply (archive_entries_read_back
           [Sample.pngBlob Byte.x0a; Sample.pngBlob Byte.x0b] 1
           "frame_0001.png").
  simpl. lia.
Defined.

Lemma append_empty (s : string) : (s ++ EmptyString)%string = s.
Proof. induction s as [|a s IH]; simpl; [reflexivity|now rewrite IH]. Qed.

Lemma length_zeros (k : nat) :
  String.length (String.concat EmptyString (repeat "0"%string k)) = k.
Proof.
  assert (E : String.concat EmptyString (repeat "0"%string k)
              = NilEmpty.string_of_uint (Nat.iter k Decimal.D0 Decimal.Nil)).
  { rewrite <- zeros_append. cbn [NilEmpty.string_of_uint].
    now rewrite append_empty. }
  rewrite E, length_string_of_uint, DecimalFacts.nb_digits_iter_D0.
  simpl. lia.
Qed.

(** X19.  [padStart] pads and never cuts: the padded text ends with the
    text given, is as long as the longer of the target width and the text,
    and is the text itself when that is already wide enough.  So a frame
    index of five or more digits is written in full, and the name of frame
    10000 is "frame_10000.png". *)
Theorem padStart_pads_never_cuts (n : nat) (s : string) :
  String.length (JSString.padStart0 n s) = Nat.max n (String.length s)
  /\ (exists zeros,
         JSString.padStart0 n s = (zeros ++ s)%string
         /\ String.length zeros = (n - String.length s)%nat)
  /\ ((n <= String.length s)%nat -> JSString.padStart0 n s = s)
  /\ PngSequence.frameName 10000 = "frame_10000.png"%string.
Proof.
  unfold JSString.padStart0.
  split; [rewrite length_append, length_zeros; lia|].
  split; [eexists; split; [reflexivity|apply length_zeros]|].
  split; [|reflexivity].
  intro H. replace (n - String.length s)%nat with 0%nat by lia. reflexivity.
Qed.

Lemma padStart_pads_never_cuts_witness :
  JSString.padStart0 4 "12345" = "12345"%string.
Proof.
  apply (padStart_pads_never_cuts 4 "12345"). simpl. lia.
Defined.

(** ** The shader: the edge mask only attenuates *)

Lemma clamp01_range (y : R) :
  (0 <= Shader.clamp y 0 1 <= 1)%R.
Proof.
  unfold Shader.clamp. split.
  - apply Rmin_glb; [apply Rmax_r|lra].
  - apply Rmin_r.
Qed.

Lemma smoothstep_range (edge0 edge1 x : R) :
  (0 <= Shader.smoothstep edge0 edge1 x <= 1)%R.
Proof.
  unfold Shader.smoothstep.
  pose proof (clamp01_range ((x - edge0) / (edge1 - edge0))) as [H0 H1].
  set (t := Shader.clamp ((x - edge0) / (edge1 - edge0)) 0 1) in *.
  split.
  - apply Rmult_le_pos; [apply Rmult_le_pos; assumption|lra].
  - assert (E : (1 - t * t * (3 - 2 * t) = (1 - t) * (1 - t) * (1 + 2 * t))%R)
      by ring.
    assert (P : (0 <= (1 - t) * (1 - t) * (1 + 2 * t))%R).
    { apply Rmult_le_pos; [apply Rmult_le_pos; lra|lra]. }
    lra.
Qed.

Lemma mix_one_range (mask s : R) :
  (0 <= mask <= 1)%R -> (0 <= s <= 1)%R ->
  (0 <= Shader.mix 1 mask s <= 1)%R.
Proof.
  intros [M0 M1] [S0 S1]. unfold Shader.mix.
  assert (P : (0 <= mask * s)%R) by now apply Rmult_le_pos.
  assert (Q : (mask * s <= 1 * s)%R) by (apply Rmult_le_compat_r; assumption).
  lra.
Qed.

Lemma Rabs_scaled (x m : R) : (0 <= m <= 1)%R -> (Rabs (x * m) <= Rabs x)%R.
Proof.
  intros [M0 M1]. rewrite Rabs_mult, (Rabs_pos_eq m M0).
  pose proof (Rabs_pos x) as P.
  assert (Q : (Rabs x * m <= Rabs x * 1)%R)
    by (apply Rmult_le_compat_l; assumption).
  lra.
Qed.

(** X20.  The edge mask is a weight between 0 and 1, and for an edge
    strength between 0 and 1 the mask only attenuates: the displacement is
    the unmasked one scaled by a factor between 0 and 1, so neither of its
    components ever exceeds the unmasked component in magnitude. *)
Theorem edge_mask_only_attenuates
  (u : Shader.Uniforms) (uSampler : Shader.vec2 -> Shader.vec4)
  (uv : Shader.vec2) :
  (0 <= Shader.uEdgeStrength u <= 1)%R ->
  (0 <= Shader.edgeMask u uSampler uv <= 1)%R
  /\ (exists m,
         (0 <= m <= 1)%R
         /\ Shader.displacement u uSampler uv
            = Shader.scale2 (Shader.displacementUnmasked u uv) m)
  /\ (Rabs (fst (Shader.displacement u uSampler uv))
      <= Rabs (fst (Shader.displacementUnmasked u uv)))%R
  /\ (Rabs (snd (Shader.displacement u uSampler uv))
      <= Rabs (snd (Shader.displacementUnmasked u uv)))%R.
Proof.
  intro S.
  assert (M : (0 <= Shader.edgeMask u uSampler uv <= 1)%R)
    by apply smoothstep_range.
  pose proof (mix_one_range _ _ M S) as K.
  split; [exact M|].
  split; [eexists; split; [exact K|reflexivity]|].
  unfold Shader.displacement, Shader.scale2. cbn [fst snd].
  split; now apply Rabs_scaled.
Qed.

Lemma edge_mask_only_attenuates_witness :
  (0 <= Shader.edgeMask Sample.defaultUniforms Sample.opaque (1 / 2, 1 / 2)%R
   <= 1)%R.
Proof.
  apply (edge_mask_only_attenuates Sample.defaultUniforms Sample.opaque
           (1 / 2, 1 / 2)%R).
  cbn [Sample.defaultUniforms Shader.uEdgeStrength]. lra.
Defined.

(** X21.  Where the alpha gradient reaches the threshold plus the 0.15
    transition band, the edge mask is 1 and the displacement is the unmasked
    one for every edge strength: hard edges are always displaced in full. *)
Theorem edge_mask_saturates
  (u : Shader.Uniforms) (uSampler : Shader.vec2 -> Shader.vec4)
  (uv : Shader.vec2) :
  (Shader.uEdgeThreshold u + 15 / 100 <= Shader.gradient u uSampler uv)%R ->
  Shader.edgeMask u uSampler uv = 1%R
  /\ Shader.displacement u uSampler uv = Shader.displacementUnmasked u uv
  /\ Shader.main u uSampler uv
     = uSampler (Shader.add2 uv (Shader.displacementUnmasked u uv)).
Proof.
  intro H.
  assert (M : Shader.edgeMask u uSampler uv = 1%R).
  { unfold Shader.edgeMask, Shader.smoothstep, Shader.clamp.
    set (g := Shader.gradient u uSampler uv) in *.
    set (th := Shader.uEdgeThreshold u) in *.
    replace (th + 15 / 100 - th)%R with (15 / 100)%R by ring.
    assert (Y : (1 <= (g - th) / (15 / 100))%R).
    { replace ((g - th) / (15 / 100))%R with ((g - th) * (100 / 15))%R by field.
      lra. }
    rewrite Rmax_left by lra. rewrite Rmin_right by lra. ring. }
  assert (D : Shader.displacement u uSampler uv
              = Shader.displacementUnmasked u uv).
  { unfold Shader.displacement. rewrite M.
    replace (Shader.mix 1 1 (Shader.uEdgeStrength u)) with 1%R
      by (unfold Shader.mix; ring).
    apply scale2_1. }
  split; [exact M|]. split; [exact D|].
  unfold Shader.main. now rewrite D.
Qed.

Lemma edge_mask_saturates_witness :
  Shader.edgeMask Sample.defaultUniforms More.halfOpaque (1 / 2, 1 / 2)%R
  = 1%R.
Proof.
  apply (edge_mask_saturates Sample.defaultUniforms More.halfOpaque
           (1 / 2, 1 / 2)%R).
  unfold Shader.gradient, Shader.pixelSize, Shader.add2, Shader.alpha,
    Shader.length2, Shader.dot2, More.halfOpaque.
  cbn [Sample.defaultUniforms Shader.uResolution Shader.uEdgeThreshold fst snd].
  destruct (Rle_dec (1 / 2 + - (1 / 100)) (1 / 2)) as [_|N]; [|exfalso; lra].
  destruct (Rle_dec (1 / 2 + 1 / 100) (1 / 2)) as [N|_]; [exfalso; lra|].
  destruct (Rle_dec (1 / 2 + 0) (1 / 2)) as [_|N]; [|exfalso; lra].
  replace ((1 - 0) * (1 - 0) + (0 - 0) * (0 - 0))%R with 1%R by ring.
  rewrite sqrt_1. lra.
Defined.

(** ** The shader: the permutation arithmetic *)

Lemma floor_bounds (y : R) : (Shader.floor y <= y < Shader.floor y + 1)%R.
Proof.
  unfold Shader.floor. destruct (base_Int_part y) as [H1 H2]. lra.
Qed.

Lemma floor_succ (y : R) : Shader.floor (y + 1) = (Shader.floor y + 1)%R.
Proof.
  unfold Shader.floor. rewrite <- plus_IZR. f_equal. symmetry.
  apply Int_part_spec. destruct (base_Int_part y) as [H1 H2].
  rewrite plus_IZR. lra.
Qed.

Lemma mod289_range (x : R) : (0 <= Shader.mod289 x < 289)%R.
Proof.
  unfold Shader.mod289.
  destruct (floor_bounds (x * (1 / 289))) as [H1 H2]. lra.
Qed.

(** X22.  [mod289] reduces into [0, 289) and has period 289, and every
    component of [permute] lies in [0, 289): the hash that picks the noise
    gradients stays in range for every input. *)
Theorem mod289_reduces (x : R) (v : Shader.vec3) :
  (0 <= Shader.mod289 x < 289)%R
  /\ Shader.mod289 (x + 289) = Shader.mod289 x
  /\ (let '(a, b, c) := Shader.permute v in
      (0 <= a < 289)%R /\ (0 <= b < 289)%R /\ (0 <= c < 289)%R).
Proof.
  split; [apply mod289_range|]. split.
  - unfold Shader.mod289.
    replace ((x + 289) * (1 / 289))%R with (x * (1 / 289) + 1)%R by field.
    rewrite floor_succ. ring.
  - destruct v as [[a b] c]. unfold Shader.permute, Shader.map3.
    repeat split; apply mod289_range.
Qed.

(** ** The shader: one more octave *)

Lemma fbm_sum (uOctaves : R) (p : Shader.vec2) :
  Shader.fbm uOctaves p = FbmSpec.fbm Shader.snoise p (Shader.int uOctaves).
Proof.
  unfold Shader.fbm, FbmSpec.fbm, FbmSpec.octaveCount.
  change (Shader.fbmLoop 8 0 (Shader.int uOctaves) p 0 (1 / 2) 1)
    with (Shader.fbmLoop 8 (Z.of_nat 0) (Shader.int uOctaves) p 0
            (FbmSpec.amplitude 0) (FbmSpec.frequency 0)).
  rewrite fbmLoop_sum.
  replace (Nat.min 8 (Z.to_nat (Shader.int uOctaves - Z.of_nat 0)))
    with (Z.to_nat (Z.min (Shader.int uOctaves) 8)) by lia.
  ring.
Qed.

Lemma fold_plus_app (l1 l2 : list R) :
  fold_right Rplus 0%R (l1 ++ l2)
  = (fold_right Rplus 0 l1 + fold_right Rplus 0 l2)%R.
Proof.
  induction l1 as [|x l1 IH]; simpl; [ring|]. rewrite IH. ring.
Qed.

Lemma amplitude_closed (k : nat) : FbmSpec.amplitude k = (/ 2 ^ S k)%R.
Proof.
  induction k as [|k IH].
  - simpl. field.
  - change (FbmSpec.amplitude (S k)) with (FbmSpec.amplitude k / 2)%R.
    rewrite IH. change (2 ^ S (S k))%R with (2 * 2 ^ S k)%R.
    field. apply pow_nonzero. lra.
Qed.

Lemma frequency_closed (k : nat) : FbmSpec.frequency k = (2 ^ k)%R.
Proof.
  induction k as [|k IH]; [reflexivity|].
  change (FbmSpec.frequency (S k)) with (2 * FbmSpec.frequency k)%R.
  now rewrite IH.
Qed.

(** X23.  Below the ceiling of 8, one more octave adds exactly one layer and
    leaves the coarser layers as they were: octave [k] contributes
    [snoise(p * 2^k) / 2^(k+1)]. *)
Theorem fbm_one_more_octave (k : nat) (p : Shader.vec2) :
  (k < 8)%nat ->
  Shader.fbm (IZR (Z.of_nat (S k))) p
  = (Shader.fbm (IZR (Z.of_nat k)) p
     + / 2 ^ S k * Shader.snoise (Shader.scale2 p (2 ^ k)))%R.
Proof.
  intro H. rewrite !fbm_sum, !int_IZR.
  unfold FbmSpec.fbm, FbmSpec.octaveCount.
  replace (Z.to_nat (Z.min (Z.of_nat (S k)) 8)) with (S k) by lia.
  replace (Z.to_nat (Z.min (Z.of_nat k) 8)) with k by lia.
  rewrite seq_S, map_app, fold_plus_app. cbn [map fold_right Nat.add].
  unfold FbmSpec.term.
  rewrite (amplitude_closed k), (frequency_closed k). ring.
Qed.

Lemma fbm_one_more_octave_witness :
  Shader.fbm (IZR (Z.of_nat 3)) (0, 0)%R
  = (Shader.fbm (IZR (Z.of_nat 2)) (0, 0)
     + / 2 ^ 3 * Shader.snoise (Shader.scale2 (0, 0) (2 ^ 2)))%R.
Proof. apply (fbm_one_more_octave 2 (0, 0)%R). lia. Defined.

(** ** The shader: when nothing moves *)

(** X24.  With [uSpeed = 0] the time vector has no effect: the shader
    returns the same colour for every [uTimeVec], so the image stands
    still. *)
Theorem zero_speed_freezes_the_image
  (u : Shader.Uniforms) (uSampler : Shader.vec2 -> Shader.vec4)
  (uv v1 v2 : Shader.vec2) :
  Shader.uSpeed u = 0%R ->
  Shader.main (With.timeVec v1 u) uSampler uv
  = Shader.main (With.timeVec v2 u) uSampler uv.
Proof.
  intro H.
  assert (C : forall v, Shader.circularTime (With.timeVec v u) = (0, 0)%R).
  { intro v. unfold Shader.circularTime, With.timeVec.
    cbn [Shader.uTimeVec Shader.uSpeed]. rewrite H. apply scale2_0. }
  assert (N : forall v, Shader.noiseCoord (With.timeVec v u) uv
                        = Shader.noiseCoord (With.timeVec (0, 0)%R u) uv).
  { intro v. unfold Shader.noiseCoord. now rewrite !C. }
  unfold Shader.main, Shader.displacement, Shader.displacementUnmasked,
    Shader.noiseX, Shader.noiseY.
  rewrite (N v1), (N v2). reflexivity.
Qed.

Lemma zero_speed_freezes_the_image_witness :
  Shader.main (With.timeVec (1, 0)%R More.stillUniforms)
              Sample.opaque (1 / 2, 1 / 2)%R
  = Shader.main (With.timeVec (0, 1)%R More.stillUniforms)
                Sample.opaque (1 / 2, 1 / 2)%R.
Proof.
  apply (zero_speed_freezes_the_image More.stillUniforms Sample.opaque
           (1 / 2, 1 / 2)%R (1, 0)%R (0, 1)%R).
  reflexivity.
Defined.

(** X25.  With [uAmountPx = 0] nothing is displaced: the shader returns the
    source colour at the pixel's own coordinate, whatever the noise, the
    phase and the edge mask. *)
Theorem zero_amount_is_the_source
  (u : Shader.Uniforms) (uSampler : Shader.vec2 -> Shader.vec4)
  (uv : Shader.vec2) :
  Shader.uAmountPx u = 0%R ->
  Shader.displacement u uSampler uv = (0, 0)%R
  /\ Shader.main u uSampler uv = uSampler uv.
Proof.
  intro H.
  assert (D : Shader.displacement u uSampler uv = (0, 0)%R).
  { unfold Shader.displacement, Shader.displacementUnmasked,
      Shader.scale2, Shader.mul2. cbn [fst snd]. rewrite H.
    f_equal; ring. }
  split; [exact D|]. unfold Shader.main. rewrite D. now rewrite add2_0.
Qed.

Lemma zero_amount_is_the_source_witness :
  Shader.main More.flatUniforms Sample.opaque (1 / 4, 3 / 4)%R
  = Sample.opaque (1 / 4, 3 / 4)%R.
Proof.
  apply (zero_amount_is_the_source More.flatUniforms Sample.opaque
           (1 / 4, 3 / 4)%R).
  reflexivity.
Defined.

(** ** The preview canvas: display size *)

Module Preview.

Import Lqa.

Lemma min2_bounds (a b : Q) :
  (PreviewCanvas.min2 a b <= a)%Q /\ (PreviewCanvas.min2 a b <= b)%Q
  /\ (PreviewCanvas.min2 a b = a \/ PreviewCanvas.min2 a b = b).
Proof.
  unfold PreviewCanvas.min2. destruct (Qle_bool a b) eqn:E.
  - apply Qle_bool_iff in E. repeat split; [lra|exact E|now left].
  - assert (N : ~ (a <= b)%Q) by (intro C; apply Qle_bool_iff in C; congruence).
    repeat split; [lra|lra|now right].
Qed.

Lemma min3_bounds (a b c : Q) :
  (PreviewCanvas.min3 a b c <= a)%Q /\ (PreviewCanvas.min3 a b c <= b)%Q
  /\ (PreviewCanvas.min3 a b c <= c)%Q
  /\ (PreviewCanvas.min3 a b c = a \/ PreviewCanvas.min3 a b c = b
      \/ PreviewCanvas.min3 a b c = c).
Proof.
  unfold PreviewCanvas.min3.
  destruct (min2_bounds a b) as (A & B & AB).
  destruct (min2_bounds (PreviewCanvas.min2 a b) c) as (C & D & CD).
  repeat split; try lra.
  destruct CD as [ -> | -> ]; [destruct AB as [ -> | -> ]; auto|auto].
Qed.

Lemma nonzero_guard (aw ah : Q) :
  (0 < aw)%Q -> (0 < ah)%Q -> Qeq_bool aw 0 || Qeq_bool ah 0 = false.
Proof.
  intros A B. apply orb_false_iff. split.
  - destruct (Qeq_bool aw 0) eqn:E; [|reflexivity].
    apply Qeq_bool_iff in E. lra.
  - destruct (Qeq_bool ah 0) eqn:E; [|reflexivity].
    apply Qeq_bool_iff in E. lra.
Qed.

(** X26.  Without a zoom level the canvas is shown at its own size times
    one factor, the least of [cw / aw], [ch / ah] and 1.  The factor is never
    above 1, so the image is never scaled up, and it is 1 for a canvas that
    is no larger than the container, which is then shown at its own size. *)
Theorem preview_is_never_scaled_up (cw ch aw ah : Q) :
  (0 < aw)%Q -> (0 < ah)%Q -> (0 <= cw)%Q -> (0 <= ch)%Q ->
  let scale := PreviewCanvas.min3 (cw / aw) (ch / ah) 1 in
  PreviewCanvas.updateSize cw ch aw ah None = Some (aw * scale, ah * scale)%Q
  /\ (scale <= cw / aw)%Q /\ (scale <= ch / ah)%Q /\ (scale <= 1)%Q
  /\ (scale = (cw / aw)%Q \/ scale = (ch / ah)%Q \/ scale = 1%Q)
  /\ (0 <= scale)%Q
  /\ (0 <= aw * scale)%Q /\ (aw * scale <= aw)%Q
  /\ (0 <= ah * scale)%Q /\ (ah * scale <= ah)%Q
  /\ ((aw <= cw)%Q -> (ah <= ch)%Q ->
      (scale == 1)%Q /\ (aw * scale == aw)%Q /\ (ah * scale == ah)%Q).
Proof.
  intros A B C D scale.
  unfold PreviewCanvas.updateSize. rewrite (nonzero_guard aw ah A B).
  fold scale.
  destruct (min3_bounds (cw / aw) (ch / ah) 1) as (S1 & S2 & S3 & S4).
  fold scale in S1, S2, S3, S4.
  assert (Xw : (0 <= cw / aw)%Q)
    by (apply Qle_shift_div_l; [exact A|now rewrite Qmult_0_l]).
  assert (Xh : (0 <= ch / ah)%Q)
    by (apply Qle_shift_div_l; [exact B|now rewrite Qmult_0_l]).
  assert (S0 : (0 <= scale)%Q)
    by (destruct S4 as [ -> | [ -> | -> ] ]; [exact Xw|exact Xh|discriminate]).
  split; [reflexivity|].
  do 5 (split; [assumption|]).
  split; [apply Qmult_le_0_compat; lra|].
  split; [rewrite <- (Qmult_1_r aw) at 2; apply Qmult_le_l; assumption|].
  split; [apply Qmult_le_0_compat; lra|].
  split; [rewrite <- (Qmult_1_r ah) at 2; apply Qmult_le_l; assumption|].
  intros Fw Fh.
  assert (Gw : (1 <= cw / aw)%Q)
    by (apply Qle_shift_div_l; [exact A|now rewrite Qmult_1_l]).
  assert (Gh : (1 <= ch / ah)%Q)
    by (apply Qle_shift_div_l; [exact B|now rewrite Qmult_1_l]).
  assert (S : (scale == 1)%Q).
  { destruct S4 as [E|[E|E]]; rewrite E in *; try reflexivity; lra. }
  split; [exact S|]. rewrite S. split; ring.
Qed.

Lemma preview_is_never_scaled_up_witness :
  PreviewCanvas.updateSize 400 600 800 600 None
  = Some (800 * PreviewCanvas.min3 (400 / 800) (600 / 600) 1,
          600 * PreviewCanvas.min3 (400 / 800) (600 / 600) 1)%Q.
Proof.
  assert (A : (0 < 800)%Q) by reflexivity.
  assert (B : (0 < 600)%Q) by reflexivity.
  assert (C : (0 <= 400)%Q) by discriminate.
  assert (D : (0 <= 600)%Q) by discriminate.
  destruct (preview_is_never_scaled_up 400 600 800 600 A B C D) as (E & _).
  exact E.
Defined.

End Preview.
